(** * pdfPageDetector: the batch task queue

    A shallow embedding of [types.ts], of [services/pdfService.ts]
    ([getPageCount], [getFileNameFromUrl]) and of the queue logic of the
    [App] component ([processUrls], [removeTask], [runTasks],
    [exportToExcel]).

    JavaScript strings are modelled by [string]; a character stands for one
    code unit below 256.  A rejected promise or a thrown exception is
    represented by the [message] of the error it carries. *)

From Stdlib Require Import List String Ascii Bool Arith ZArith NArith Lia.
From Stdlib Require Import DecimalString DecimalN FinFun.
Import ListNotations.
Open Scope string_scope.
Open Scope list_scope.

(** ** String methods of the host language used by the sources *)

Module JsString.

(** [s.lastIndexOf(c)]: index of the last occurrence of [c], or -1. *)
Fixpoint lastIndexOf (c : ascii) (s : string) : Z :=
  match s with
  | EmptyString => (-1)%Z
  | String a r =>
      let k := lastIndexOf c r in
      if (0 <=? k)%Z then (k + 1)%Z
      else if Ascii.eqb a c then 0%Z else (-1)%Z
  end.

Fixpoint drop (n : nat) (s : string) : string :=
  match n, s with
  | O, _ => s
  | S _, EmptyString => EmptyString
  | S k, String _ r => drop k r
  end.

(** [s.substring(start)]: a negative start counts as 0, a start beyond
    the end gives the empty string. *)
Definition substring (start : Z) (s : string) : string :=
  drop (Z.to_nat start) s.

(** [s.split(c)] for a one-character separator. *)
Fixpoint split (c : ascii) (s : string) : list string :=
  match s with
  | EmptyString => [EmptyString]
  | String a r =>
      if Ascii.eqb a c then EmptyString :: split c r
      else match split c r with
           | p :: ps => String a p :: ps
           | [] => [String a EmptyString]
           end
  end.

(** [arr[0]] on the result of a split (never out of range there). *)
Definition first (l : list string) : string := hd EmptyString l.

(** [s.startsWith(p)]. *)
Definition startsWith (p s : string) : bool := String.prefix p s.

(** White space and line terminators among the code units below 256:
    TAB, LF, VT, FF, CR, SPACE and NBSP. *)
Definition isWhiteSpace (a : ascii) : bool :=
  let n := nat_of_ascii a in
  ((9 <=? n)%nat && (n <=? 13)%nat) || (n =? 32)%nat || (n =? 160)%nat.

Fixpoint trimStart (s : string) : string :=
  match s with
  | EmptyString => EmptyString
  | String a r => if isWhiteSpace a then trimStart r else s
  end.

Fixpoint trimEnd (s : string) : string :=
  match s with
  | EmptyString => EmptyString
  | String a r =>
      match trimEnd r with
      | EmptyString => if isWhiteSpace a then EmptyString
                       else String a EmptyString
      | r' => String a r'
      end
  end.

(** [s.trim()]. *)
Definition trim (s : string) : string := trimEnd (trimStart s).

(** Truthiness of a string: only the empty string is falsy. *)
Definition truthy (s : string) : bool :=
  match s with EmptyString => false | _ => true end.

Fixpoint allWhiteSpace (s : string) : bool :=
  match s with
  | EmptyString => true
  | String a r => isWhiteSpace a && allWhiteSpace r
  end.

Definition startsWithWhiteSpace (s : string) : bool :=
  match s with
  | EmptyString => false
  | String a _ => isWhiteSpace a
  end.

Fixpoint endsWithWhiteSpace (s : string) : bool :=
  match s with
  | EmptyString => false
  | String a EmptyString => isWhiteSpace a
  | String _ r => endsWithWhiteSpace r
  end.

End JsString.

(** ** types.ts *)

Inductive TaskStatus : Type :=
| IDLE | DOWNLOADING | ANALYZING | COMPLETED | FAILED.

Definition TaskStatus_eqb (a b : TaskStatus) : bool :=
  match a, b with
  | IDLE, IDLE | DOWNLOADING, DOWNLOADING | ANALYZING, ANALYZING
  | COMPLETED, COMPLETED | FAILED, FAILED => true
  | _, _ => false
  end.

(** [pageCount?: number] and [error?: string] are optional: [None] is
    [undefined]. *)
Record PdfTask : Type := mkTask {
  id : string;
  url : string;
  fileName : string;
  pageCount : option Z;
  status : TaskStatus;
  error : option string
}.

(** The ["Page Count"] column is [number | string]. *)
Inductive Cell : Type :=
| CellNumber (n : Z)
| CellString (s : string).

Record ExcelExportData : Type := mkRow {
  File_Name : string;
  URL : string;
  Page_Count : Cell
}.

(** Outcome of awaiting a promise (or of a [try] block): the value, or the
    [message] of the error. *)
Inductive Promise (A : Type) : Type :=
| Resolved (a : A)
| Rejected (message : string).
Arguments Resolved {A} a.
Arguments Rejected {A} message.

(** ** The platform and the collaborators

    Everything the sources import or find in the browser.  Asynchronous
    collaborators thread an abstract [World]; they are total functions: a
    call always settles. *)

Class Platform : Type := {
  World : Type;
  Response : Type;
  Blob : Type;
  ArrayBuffer : Type;
  PDFDocumentProxy : Type;
  URLObject : Type;
  (* fetch(url), response.ok, response.status, response.blob() *)
  fetch : string -> World -> Promise Response * World;
  ok : Response -> bool;
  http_status : Response -> N;
  blob : Response -> World -> Promise Blob * World;
  (* blob.arrayBuffer(), pdfjsLib.getDocument(..).promise, pdf.numPages *)
  arrayBuffer : Blob -> World -> Promise ArrayBuffer * World;
  getDocument : ArrayBuffer -> World -> Promise PDFDocumentProxy * World;
  numPages : PDFDocumentProxy -> Z;
  (* the k-th identifier handed out by uuidv4() *)
  uuidv4 : nat -> string;
  (* new URL(s) (None: it throws), urlObj.pathname *)
  newURL : string -> option URLObject;
  pathname : URLObject -> string;
  (* decodeURIComponent(s) (None: it throws URIError) *)
  decodeURIComponent : string -> option string
}.

(** What the collaborators promise: identifiers never repeat, and a page
    count is not negative. *)
Class PlatformLaws (P : Platform) : Prop := {
  uuidv4_inj : forall j k, uuidv4 j = uuidv4 k -> j = k;
  numPages_nonneg : forall d, (0 <= numPages d)%Z
}.

(** ** services/pdfService.ts *)

Section PdfService.
Context {P : Platform}.

(** A small monad for the [async] functions: state passing over the
    world, stopping at the first rejection. *)
Definition Async (A : Type) : Type := World -> Promise A * World.

Definition ret {A} (a : A) : Async A := fun w => (Resolved a, w).

Definition bind {A B} (m : Async A) (k : A -> Async B) : Async B :=
  fun w =>
    match m w with
    | (Resolved a, w') => k a w'
    | (Rejected e, w') => (Rejected e, w')
    end.

Definition getPageCount (b : Blob) : Async Z :=
  bind (arrayBuffer b) (fun buf =>
  bind (getDocument buf) (fun pdf =>
  ret (numPages pdf))).

Definition default_name : string := "document.pdf".

Definition getFileNameFromUrl (u : string) : string :=
  match newURL u with
  | None => default_name
  | Some urlObj =>
      let pathname := pathname urlObj in
      let fileName :=
        JsString.substring (JsString.lastIndexOf "/" pathname + 1) pathname in
      let cleanFileName :=
        JsString.first (JsString.split "#"
          (JsString.first (JsString.split "?" fileName))) in
      match decodeURIComponent cleanFileName with
      | None => default_name
      | Some decoded =>
          if JsString.truthy decoded then decoded else default_name
      end
  end.

End PdfService.

(** ** App.tsx: the queue *)

(** The object literals of the four [setTasks] calls of [runTasks]:
    [{...t, status: DOWNLOADING, error: undefined}], [{...t, status:
    ANALYZING}], [{...t, status: COMPLETED, pageCount}] and [{...t, status:
    FAILED, error: err.message}]. *)
Inductive Patch : Type :=
| ToDownloading
| ToAnalyzing
| ToCompleted (pageCount : Z)
| ToFailed (message : string).

Definition patch (p : Patch) (t : PdfTask) : PdfTask :=
  match p with
  | ToDownloading =>
      mkTask (id t) (url t) (fileName t) (pageCount t) DOWNLOADING None
  | ToAnalyzing =>
      mkTask (id t) (url t) (fileName t) (pageCount t) ANALYZING (error t)
  | ToCompleted n =>
      mkTask (id t) (url t) (fileName t) (Some n) COMPLETED (error t)
  | ToFailed msg =>
      mkTask (id t) (url t) (fileName t) (pageCount t) FAILED (Some msg)
  end.

(** [prev.map(t => t.id === task.id ? {...t, ...} : t)]. *)
Definition updateTask (taskId : string) (p : Patch) (prev : list PdfTask)
  : list PdfTask :=
  map (fun t => if String.eqb (id t) taskId then patch p t else t) prev.

(** [`${n}`] for a status code. *)
Definition show (n : N) : string := NilZero.string_of_uint (N.to_uint n).

Definition http_error (code : N) : string :=
  ("HTTP " ++ show code ++ ": Failed to download")%string.

Section App.
Context {P : Platform}.

(** Where the [async] function [runTasks] is suspended: not called (or
    returned), at the test of the [for] loop, or at one of its three
    [await]s, with the locals alive there. *)
Inductive Pc : Type :=
| NotRunning
| LoopTest
| AwaitFetch (task : PdfTask)
| AwaitBlob (task : PdfTask) (response : Response)
| AwaitPageCount (task : PdfTask) (b : Blob).

(** The component's state [tasks] and [isProcessing], the number of
    identifiers drawn so far, the world, and the frame of [runTasks]:
    the copy [tasksToProcess], the loop variable [i] and the control
    point. *)
Record State : Type := mkState {
  tasks : list PdfTask;
  isProcessing : bool;
  uuidCalls : nat;
  world : World;
  tasksToProcess : list PdfTask;
  loop_i : nat;
  pc : Pc
}.

Definition initial (w : World) : State :=
  mkState [] false 0 w [] 0 NotRunning.

(** *** processUrls *)

Definition isValidUrl (u : string) : bool :=
  JsString.truthy u &&
  (JsString.startsWith "http://" u || JsString.startsWith "https://" u).

Definition validUrls (urls : list string) : list string :=
  filter isValidUrl (map JsString.trim urls).

(** [validUrls.map(url => ({id: uuidv4(), url, fileName: ..., status:
    IDLE}))], the first identifier drawn being the [k]-th. *)
Fixpoint newTasks (k : nat) (valid : list string) : list PdfTask :=
  match valid with
  | [] => []
  | u :: rest =>
      mkTask (uuidv4 k) u (getFileNameFromUrl u) None IDLE None
      :: newTasks (S k) rest
  end.

Definition processUrls (urls : list string) (s : State) : State :=
  let valid := validUrls urls in
  if (List.length valid =? 0)%nat then s
  else mkState (tasks s ++ newTasks (uuidCalls s) valid) (isProcessing s)
         (uuidCalls s + List.length valid) (world s)
         (tasksToProcess s) (loop_i s) (pc s).

(** *** removeTask and clearAll *)

Definition removeTask (taskId : string) (s : State) : State :=
  mkState (filter (fun t => negb (String.eqb (id t) taskId)) (tasks s))
    (isProcessing s) (uuidCalls s) (world s)
    (tasksToProcess s) (loop_i s) (pc s).

Definition clearAll (s : State) : State :=
  mkState [] (isProcessing s) (uuidCalls s) (world s)
    (tasksToProcess s) (loop_i s) (pc s).

(** *** runTasks *)

(** What a step of the run does, as seen from outside. *)
Inductive Event : Type :=
| Continue (taskId : string)            (* the [continue] of a COMPLETED task *)
| Update (taskId : string) (p : Patch)  (* a [setTasks] call *)
| GotResponse (taskId : string)         (* [fetch] resolved with [ok] *)
| Return.                               (* [setIsProcessing(false)] *)

(** The call itself, up to the first test of the loop:
    [setIsProcessing(true); const tasksToProcess = [...tasks]; i = 0]. *)
Definition runTasks (s : State) : State :=
  mkState (tasks s) true (uuidCalls s) (world s) (tasks s) 0 LoopTest.

(** A [setTasks] call that leaves the iteration: the [catch] block, or the
    last statement of the [try] block; then [i++]. *)
Definition finishTask (task : PdfTask) (p : Patch) (w : World) (s : State)
  : Event * State :=
  (Update (id task) p,
   mkState (updateTask (id task) p (tasks s)) (isProcessing s)
     (uuidCalls s) w (tasksToProcess s) (S (loop_i s)) LoopTest).

Definition step (s : State) : option (Event * State) :=
  match pc s with
  | NotRunning => None
  | LoopTest =>
      match nth_error (tasksToProcess s) (loop_i s) with
      | None =>
          Some (Return,
                mkState (tasks s) false (uuidCalls s) (world s)
                  (tasksToProcess s) (loop_i s) NotRunning)
      | Some task =>
          if TaskStatus_eqb (status task) COMPLETED then
            Some (Continue (id task),
                  mkState (tasks s) (isProcessing s) (uuidCalls s) (world s)
                    (tasksToProcess s) (S (loop_i s)) LoopTest)
          else
            Some (Update (id task) ToDownloading,
                  mkState (updateTask (id task) ToDownloading (tasks s))
                    (isProcessing s) (uuidCalls s) (world s)
                    (tasksToProcess s) (loop_i s) (AwaitFetch task))
      end
  | AwaitFetch task =>
      match fetch (url task) (world s) with
      | (Rejected e, w) => Some (finishTask task (ToFailed e) w s)
      | (Resolved response, w) =>
          if negb (ok response) then
            Some (finishTask task
                    (ToFailed (http_error (http_status response))) w s)
          else
            Some (GotResponse (id task),
                  mkState (tasks s) (isProcessing s) (uuidCalls s) w
                    (tasksToProcess s) (loop_i s) (AwaitBlob task response))
      end
  | AwaitBlob task response =>
      match blob response (world s) with
      | (Rejected e, w) => Some (finishTask task (ToFailed e) w s)
      | (Resolved b, w) =>
          Some (Update (id task) ToAnalyzing,
                mkState (updateTask (id task) ToAnalyzing (tasks s))
                  (isProcessing s) (uuidCalls s) w
                  (tasksToProcess s) (loop_i s) (AwaitPageCount task b))
      end
  | AwaitPageCount task b =>
      match getPageCount b (world s) with
      | (Rejected e, w) => Some (finishTask task (ToFailed e) w s)
      | (Resolved n, w) => Some (finishTask task (ToCompleted n) w s)
      end
  end.

(** An execution of the run: steps of [runTasks], between which links may
    be added to the queue.  The trace keeps the events of the run. *)
Inductive exec : State -> list Event -> State -> Prop :=
| exec_done s : exec s [] s
| exec_step s e s1 tr s2 :
    step s = Some (e, s1) -> exec s1 tr s2 -> exec s (e :: tr) s2
| exec_add s urls tr s2 :
    exec (processUrls urls s) tr s2 -> exec s tr s2.

(** The run alone, for at most [fuel] steps. *)
Fixpoint steps (fuel : nat) (s : State) : list Event * State :=
  match fuel with
  | O => ([], s)
  | S k =>
      match step s with
      | None => ([], s)
      | Some (e, s1) => let (tr, s2) := steps k s1 in (e :: tr, s2)
      end
  end.

(** Every state the component can be in: links are added at any time, a
    task is removed, the queue cleared and a run started only while no
    run is in progress (their buttons are disabled otherwise). *)
Inductive reachable : State -> Prop :=
| reach_initial w : reachable (initial w)
| reach_processUrls s urls : reachable s -> reachable (processUrls urls s)
| reach_removeTask s taskId :
    reachable s -> isProcessing s = false -> reachable (removeTask taskId s)
| reach_clearAll s :
    reachable s -> isProcessing s = false -> reachable (clearAll s)
| reach_runTasks s :
    reachable s -> isProcessing s = false -> reachable (runTasks s)
| reach_step s e s1 :
    reachable s -> step s = Some (e, s1) -> reachable s1.

(** *** exportToExcel: the rows handed to the sheet writer *)

Definition exportRow (t : PdfTask) : ExcelExportData :=
  mkRow (fileName t) (url t)
    match pageCount t with
    | Some n => CellNumber n
    | None => if TaskStatus_eqb (status t) FAILED
              then CellString "Error" else CellString "Pending"
    end.

Definition exportData (ts : list PdfTask) : list ExcelExportData :=
  map exportRow ts.

End App.

(** ** The run in direct style

    [runTasks] read as sequential code: the events of one iteration from
    each of its control points, and of the whole loop over what is left of
    the copy. *)

Section DirectStyle.
Context {P : Platform}.

Definition afterPageCount (task : PdfTask) (b : Blob) (w : World)
  : list Event * World :=
  match getPageCount b w with
  | (Rejected e, w1) => ([Update (id task) (ToFailed e)], w1)
  | (Resolved n, w1) => ([Update (id task) (ToCompleted n)], w1)
  end.

Definition afterBlob (task : PdfTask) (r : Response) (w : World)
  : list Event * World :=
  match blob r w with
  | (Rejected e, w1) => ([Update (id task) (ToFailed e)], w1)
  | (Resolved b, w1) =>
      let (evs, w2) := afterPageCount task b w1 in
      (Update (id task) ToAnalyzing :: evs, w2)
  end.

Definition afterFetch (task : PdfTask) (w : World) : list Event * World :=
  match fetch (url task) w with
  | (Rejected e, w1) => ([Update (id task) (ToFailed e)], w1)
  | (Resolved r, w1) =>
      if negb (ok r) then
        ([Update (id task) (ToFailed (http_error (http_status r)))], w1)
      else
        let (evs, w2) := afterBlob task r w1 in
        (GotResponse (id task) :: evs, w2)
  end.

Definition iteration (task : PdfTask) (w : World) : list Event * World :=
  if TaskStatus_eqb (status task) COMPLETED then ([Continue (id task)], w)
  else
    let (evs, w1) := afterFetch task w in
    (Update (id task) ToDownloading :: evs, w1).

Fixpoint loop (todo : list PdfTask) (w : World) : list Event * World :=
  match todo with
  | [] => ([Return], w)
  | task :: rest =>
      let (evs, w1) := iteration task w in
      let (evs', w2) := loop rest w1 in
      (evs ++ evs', w2)
  end.

Definition andThen (r : list Event * World) (todo : list PdfTask)
  : list Event * World :=
  let (evs, w1) := r in
  let (evs', w2) := loop todo w1 in
  (evs ++ evs', w2).

(** What is left of the run in a state. *)
Definition remaining (s : State) : list Event * World :=
  match pc s with
  | NotRunning => ([], world s)
  | LoopTest => loop (skipn (loop_i s) (tasksToProcess s)) (world s)
  | AwaitFetch task =>
      andThen (afterFetch task (world s))
        (skipn (S (loop_i s)) (tasksToProcess s))
  | AwaitBlob task r =>
      andThen (afterBlob task r (world s))
        (skipn (S (loop_i s)) (tasksToProcess s))
  | AwaitPageCount task b =>
      andThen (afterPageCount task b (world s))
        (skipn (S (loop_i s)) (tasksToProcess s))
  end.

(** The identifiers of the tasks an execution sets to DOWNLOADING, and of
    those it sets to COMPLETED or FAILED, in the order of the events. *)
Definition startedId (e : Event) : option string :=
  match e with
  | Update k ToDownloading => Some k
  | _ => None
  end.

Definition finishedId (e : Event) : option string :=
  match e with
  | Update k (ToCompleted _) | Update k (ToFailed _) => Some k
  | _ => None
  end.

Fixpoint choose {A B} (f : A -> option B) (l : list A) : list B :=
  match l with
  | [] => []
  | a :: r => match f a with
              | Some b => b :: choose f r
              | None => choose f r
              end
  end.

Definition started (tr : list Event) : list string := choose startedId tr.
Definition finished (tr : list Event) : list string := choose finishedId tr.

Definition notCompleted (t : PdfTask) : bool :=
  negb (TaskStatus_eqb (status t) COMPLETED).

(** The identifier an event is about. *)
Definition about (e : Event) : option string :=
  match e with
  | Continue k | Update k _ | GotResponse k => Some k
  | Return => None
  end.

End DirectStyle.

(** ** The data model of the queue *)

Definition isSet {A} (o : option A) : Prop := o <> None.

(** [pageCount] is set exactly on COMPLETED tasks and is no negative count;
    [error] is set exactly on FAILED tasks. *)
Definition task_ok (t : PdfTask) : Prop :=
  (isSet (pageCount t) <-> status t = COMPLETED) /\
  (isSet (error t) <-> status t = FAILED) /\
  (forall n, pageCount t = Some n -> (0 <= n)%Z).

Definition settled (t : PdfTask) : Prop :=
  task_ok t /\ (status t = IDLE \/ status t = COMPLETED \/ status t = FAILED).

Definition terminal (t : PdfTask) : Prop :=
  task_ok t /\ (status t = COMPLETED \/ status t = FAILED).

(** A task as [processUrls] makes it. *)
Definition fresh_task (t : PdfTask) : Prop :=
  status t = IDLE /\ pageCount t = None /\ error t = None.

(** [t] is what the run made of the task [t0] of its copy. *)
Definition processed (t0 t : PdfTask) : Prop :=
  id t = id t0 /\ url t = url t0 /\ fileName t = fileName t0 /\
  terminal t /\ (status t0 = COMPLETED -> t = t0).

Definition inFlight (t : PdfTask) : bool :=
  TaskStatus_eqb (status t) DOWNLOADING || TaskStatus_eqb (status t) ANALYZING.

Definition countInFlight (ts : list PdfTask) : nat :=
  List.length (filter inFlight ts).

Section Invariants.
Context {P : Platform}.

Definition issued (s : State) : Prop :=
  forall t, In t (tasks s) ->
    exists k, (k < uuidCalls s)%nat /\ id t = uuidv4 k.

(** No run in progress. *)
Definition Quiescent (s : State) : Prop :=
  pc s = NotRunning /\ isProcessing s = false /\
  NoDup (map id (tasks s)) /\ issued s /\ Forall settled (tasks s).

(** The task of the copy the run is working on, with its present form. *)
Definition cursor (p : Pc) : option (PdfTask * PdfTask) :=
  match p with
  | NotRunning | LoopTest => None
  | AwaitFetch t | AwaitBlob t _ => Some (t, patch ToDownloading t)
  | AwaitPageCount t _ =>
      Some (t, patch ToAnalyzing (patch ToDownloading t))
  end.

(** A run in progress (or returned): the copy splits at [i], its first
    part is done, the rest is untouched, links added since come last. *)
Definition Progress (s : State) : Prop :=
  NoDup (map id (tasks s)) /\ issued s /\
  exists sdone todo done extra,
    List.length sdone = loop_i s /\
    Forall2 processed sdone done /\
    Forall settled todo /\
    Forall fresh_task extra /\
    match pc s with
    | NotRunning => isProcessing s = false /\ todo = []
    | _ => isProcessing s = true
    end /\
    match cursor (pc s) with
    | None =>
        tasksToProcess s = sdone ++ todo /\
        tasks s = done ++ todo ++ extra
    | Some (t, cur) =>
        tasksToProcess s = sdone ++ t :: todo /\
        tasks s = done ++ cur :: todo ++ extra /\
        settled t /\ status t <> COMPLETED
    end.

Definition Inv (s : State) : Prop :=
  match pc s with
  | NotRunning => Quiescent s
  | _ => Progress s
  end.

(** The identifiers the rest of the run may still touch. *)
Definition pending (s : State) : list string :=
  match pc s with
  | NotRunning => []
  | LoopTest => map id (skipn (loop_i s) (tasksToProcess s))
  | AwaitFetch t | AwaitBlob t _ | AwaitPageCount t _ =>
      id t :: map id (skipn (S (loop_i s)) (tasksToProcess s))
  end.

(** The ways the [try] block of an iteration fails in a state, with the
    message the [catch] block receives. *)
Definition fails (s : State) (task : PdfTask) (msg : string) : Prop :=
  (pc s = AwaitFetch task /\
     exists w, fetch (url task) (world s) = (Rejected msg, w)) \/
  (pc s = AwaitFetch task /\
     exists r w, fetch (url task) (world s) = (Resolved r, w) /\
                 ok r = false /\ msg = http_error (http_status r)) \/
  (exists r, pc s = AwaitBlob task r /\
     exists w, blob r (world s) = (Rejected msg, w)) \/
  (exists b, pc s = AwaitPageCount task b /\
     exists w, getPageCount b (world s) = (Rejected msg, w)).

End Invariants.

(** ** The descriptions of the design document, to compare with the code *)

Module Described.

(** The text up to the first [c]. *)
Fixpoint before (c : ascii) (s : string) : string :=
  match s with
  | EmptyString => EmptyString
  | String a r => if Ascii.eqb a c then EmptyString else String a (before c r)
  end.

(** The last segment of a path. *)
Definition lastSegment (p : string) : string :=
  last (JsString.split "/" p) EmptyString.

Section WithPlatform.
Context {P : Platform}.

(** Last path segment, query and fragment stripped, percent-decoded;
    the default name if that fails or gives the empty string. *)
Definition displayName (u : string) : string :=
  match newURL u with
  | None => "document.pdf"
  | Some o =>
      match decodeURIComponent
              (before "#" (before "?" (lastSegment (pathname o)))) with
      | None => "document.pdf"
      | Some EmptyString => "document.pdf"
      | Some name => name
      end
  end.

Definition hasAllowedScheme (u : string) : bool :=
  JsString.startsWith "http://" u || JsString.startsWith "https://" u.

(** Append as described: a task for each string that starts with an
    allowed prefix, every other string dropped. *)
Definition append (urls : list string) (s : State) : list PdfTask :=
  tasks s ++ newTasks (uuidCalls s) (filter hasAllowedScheme urls).

(** The page-count cell by status. *)
Definition cellMatches (t : PdfTask) (c : Cell) : Prop :=
  match status t with
  | COMPLETED =>
      exists n, pageCount t = Some n /\ (0 <= n)%Z /\ c = CellNumber n
  | FAILED => c = CellString "Error"
  | IDLE | DOWNLOADING | ANALYZING => c = CellString "Pending"
  end.

Definition rowMatches (t : PdfTask) (r : ExcelExportData) : Prop :=
  File_Name r = fileName t /\ URL r = url t /\
  cellMatches t (Page_Count r).

End WithPlatform.

End Described.

(** ** A small platform to run the model on

    Four documents on a scripted network, identifiers in unary, and
    stand-ins for [URL] and [decodeURIComponent] that know plain http(s)
    links and escapes of ASCII characters only. *)

Module Sample.

Inductive Body : Type := Pdf (pages : N) | Garbage | Truncated.
Inductive Reply : Type := Offline | Http (code : N) (body : Body).

(** The world is the number of requests made so far; the fourth document
    is served once two requests have been made. *)
Definition site (u : string) (requests : nat) : Reply :=
  if String.eqb u "https://a/x.pdf" then Http 200 (Pdf 3)
  else if String.eqb u "https://b/y.pdf" then Http 404 Garbage
  else if String.eqb u "https://c/z.pdf" then Http 200 Garbage
  else if String.eqb u "https://d/w.pdf" then
    if (requests <? 2)%nat then Offline else Http 200 (Pdf 12)
  else if String.eqb u "https://e/v.pdf" then Http 200 Truncated
  else Offline.

Definition sample_fetch (u : string) (w : nat) : Promise (N * Body) * nat :=
  (match site u w with
   | Offline => Rejected "Failed to fetch"
   | Http code body => Resolved (code, body)
   end, S w).

Definition sample_ok (r : N * Body) : bool :=
  (200 <=? fst r)%N && (fst r <=? 299)%N.

Definition sample_blob (r : N * Body) (w : nat) : Promise Body * nat :=
  (match snd r with
   | Truncated => Rejected "network error"
   | b => Resolved b
   end, w).

Definition sample_getDocument (b : Body) (w : nat) : Promise N * nat :=
  (match b with
   | Pdf n => Resolved n
   | _ => Rejected "Invalid PDF structure."
   end, w).

Fixpoint unary (k : nat) : string :=
  match k with
  | O => "u"
  | S j => String "1" (unary j)
  end.

Fixpoint beforeAny (stops : list ascii) (s : string) : string :=
  match s with
  | EmptyString => EmptyString
  | String a r =>
      if existsb (Ascii.eqb a) stops then EmptyString
      else String a (beforeAny stops r)
  end.

(** The path of [scheme://host/path?query#fragment]. *)
Definition sample_newURL (s : string) : option string :=
  let rest :=
    if String.prefix "https://" s then Some (JsString.drop 8 s)
    else if String.prefix "http://" s then Some (JsString.drop 7 s)
    else None in
  match rest with
  | None => None
  | Some r =>
      let host := beforeAny ["/"; "?"; "#"]%char r in
      match host with
      | EmptyString => None
      | _ =>
          let path :=
            beforeAny ["?"; "#"]%char (JsString.drop (String.length host) r) in
          Some match path with EmptyString => "/" | _ => path end
      end
  end.

Definition hexDigit (a : ascii) : option nat :=
  let n := nat_of_ascii a in
  if ((48 <=? n) && (n <=? 57))%nat then Some (n - 48)
  else if ((65 <=? n) && (n <=? 70))%nat then Some (n - 55)
  else if ((97 <=? n) && (n <=? 102))%nat then Some (n - 87)
  else None.

Fixpoint sample_decode (s : string) : option string :=
  match s with
  | EmptyString => Some EmptyString
  | String "%" (String h (String l r)) =>
      match hexDigit h, hexDigit l, sample_decode r with
      | Some x, Some y, Some d =>
          if (16 * x + y <? 128)%nat
          then Some (String (ascii_of_nat (16 * x + y)) d)
          else None
      | _, _, _ => None
      end
  | String "%" _ => None
  | String a r =>
      match sample_decode r with
      | Some d => Some (String a d)
      | None => None
      end
  end.

#[export] Instance platform : Platform := {|
  World := nat;
  Response := N * Body;
  Blob := Body;
  ArrayBuffer := Body;
  PDFDocumentProxy := N;
  URLObject := string;
  fetch := sample_fetch;
  ok := sample_ok;
  http_status := fst;
  blob := sample_blob;
  arrayBuffer := fun b w => (Resolved b, w);
  getDocument := sample_getDocument;
  numPages := Z.of_N;
  uuidv4 := unary;
  newURL := sample_newURL;
  pathname := fun p => p;
  decodeURIComponent := sample_decode
|}.

(** The queue after pasting three links, one of them malformed. *)
Definition three_links : list string :=
  ["https://a/x.pdf"; "not-a-url"; "https://b/y.pdf"].

Definition start : State := initial (P := platform) 0%nat.

Definition queue3 : State :=
  processUrls ["https://a/x.pdf"; "https://b/y.pdf"; "https://a/x.pdf"] start.

(** A queue run once: its first task is COMPLETED, its second FAILED. *)
Definition retry0 : State :=
  processUrls ["https://a/x.pdf"; "https://d/w.pdf"] start.

Definition retry1 : State := snd (steps 9 (runTasks retry0)).

Definition task_a : PdfTask :=
  mkTask "u" "https://a/x.pdf" "x.pdf" (Some 3%Z) COMPLETED None.

Definition task_d : PdfTask :=
  mkTask "1u" "https://d/w.pdf" "w.pdf" None FAILED (Some "Failed to fetch").

End Sample.

(** ** App.tsx: the rest of the component

    The two ways links reach [processUrls], and what the page derives from
    the queue: the counters of the progress bar and the conditions under
    which the Export and Run buttons are shown. *)

(** The separator of [urlInput.split('\n')]. *)
Definition newline : ascii := "010"%char.

(** [arr.join(sep)], to write a text from its lines. *)
Fixpoint join (sep : string) (l : list string) : string :=
  match l with
  | [] => EmptyString
  | [x] => x
  | x :: rest => (x ++ sep ++ join sep rest)%string
  end.

(** A value found in a sheet: a string, or anything else. *)
Inductive SheetCell (Other : Type) : Type :=
| CellText (s : string)
| CellOther (o : Other).
Arguments CellText {Other} s.
Arguments CellOther {Other} o.

Section Inputs.
Context {P : Platform}.

(** [addFromTextarea]: the new content of the text area and the new
    state. *)
Definition addFromTextarea (urlInput : string) (s : State) : string * State :=
  (EmptyString, processUrls (JsString.split newline urlInput) s).

(** [disabled={!urlInput.trim() || isProcessing}] of the button that calls
    it. *)
Definition addDisabled (urlInput : string) (s : State) : bool :=
  negb (JsString.truthy (JsString.trim urlInput)) || isProcessing s.

Variable Other : Type.

(** [data.map(row => row[0]).filter(cell => typeof cell === 'string')]:
    [row[0]] of an empty row is [undefined], which is no string. *)
Fixpoint firstColumn (data : list (list (SheetCell Other))) : list string :=
  match data with
  | [] => []
  | row :: rest =>
      match nth_error row 0 with
      | Some (CellText s) => s :: firstColumn rest
      | _ => firstColumn rest
      end
  end.

Definition parse_alert : string :=
  "Failed to parse Excel file. Please ensure it has a column with URLs.".

(** The [onload] handler of [handleExcelUpload], given what reading the
    workbook and [sheet_to_json] gave (or that they threw): the new state
    and the alert shown, if any. *)
Definition onSheetLoaded (parsed : Promise (list (list (SheetCell Other))))
    (s : State) : State * option string :=
  match parsed with
  | Resolved data => (processUrls (firstColumn data) s, None)
  | Rejected _ => (s, Some parse_alert)
  end.

End Inputs.

(** [tasks.filter(t => t.status === st).length]. *)
Definition countStatus (st : TaskStatus) (ts : list PdfTask) : nat :=
  List.length (filter (fun t => TaskStatus_eqb (status t) st) ts).

(** [tasks.some(t => t.status === COMPLETED || t.status === FAILED)]: the
    Export button is shown. *)
Definition showExport (ts : list PdfTask) : bool :=
  existsb (fun t => TaskStatus_eqb (status t) COMPLETED
                    || TaskStatus_eqb (status t) FAILED) ts.

(** [tasks.some(t => t.status === IDLE || t.status === FAILED)]: the Run
    button is shown. *)
Definition showRun (ts : list PdfTask) : bool :=
  existsb (fun t => TaskStatus_eqb (status t) IDLE
                    || TaskStatus_eqb (status t) FAILED) ts.

(** What never changes in a task. *)
Definition identity (t : PdfTask) : string * string * string :=
  (id t, url t, fileName t).

Definition isPending (c : Cell) : bool :=
  match c with
  | CellString s => String.eqb s "Pending"
  | CellNumber _ => false
  end.

Section History.
Context {P : Platform}.

(** The component going from a state to a later one, by the operations of
    [reachable]. *)
Inductive evolves : State -> State -> Prop :=
| evolves_refl s : evolves s s
| evolves_processUrls s s1 urls :
    evolves s s1 -> evolves s (processUrls urls s1)
| evolves_removeTask s s1 taskId :
    evolves s s1 -> isProcessing s1 = false -> evolves s (removeTask taskId s1)
| evolves_clearAll s s1 :
    evolves s s1 -> isProcessing s1 = false -> evolves s (clearAll s1)
| evolves_runTasks s s1 :
    evolves s s1 -> isProcessing s1 = false -> evolves s (runTasks s1)
| evolves_step s s1 e s2 :
    evolves s s1 -> step s1 = Some (e, s2) -> evolves s s2.

(** The effect of an event on the queue, and of a trace. *)
Definition applyEvent (ts : list PdfTask) (e : Event) : list PdfTask :=
  match e with
  | Update k p => updateTask k p ts
  | _ => ts
  end.

Definition replay (tr : list Event) (ts : list PdfTask) : list PdfTask :=
  fold_left applyEvent tr ts.

End History.

(** * Properties *)

(** ** Strings *)

Module JsStringFacts.
Import JsString.

Lemma split_not_nil c s : split c s <> [].
Proof.
  destruct s as [|a r]; simpl; [discriminate|].
  destruct (Ascii.eqb a c); [discriminate|].
  destruct (split c r); discriminate.
Qed.

Lemma first_split c s : first (split c s) = Described.before c s.
Proof.
  induction s as [|a r IH]; simpl; [reflexivity|].
  destruct (Ascii.eqb a c); [reflexivity|].
  destruct (split c r) as [|p ps] eqn:E.
  - exfalso. exact (split_not_nil c r E).
  - simpl in *. now rewrite IH.
Qed.

(** Either [c] does not occur and the split is the string itself, or the
    text after its last occurrence is the last piece of the split. *)
Lemma lastIndexOf_split c s :
  (lastIndexOf c s = (-1)%Z /\ split c s = [s]) \/
  ((0 <= lastIndexOf c s)%Z /\
   drop (Z.to_nat (lastIndexOf c s + 1)) s = last (split c s) EmptyString /\
   exists p q ps, split c s = p :: q :: ps).
Proof.
  induction s as [|a r IH]; simpl.
  - left. split; reflexivity.
  - destruct IH as [[Hk Hs] | (Hk & Hd & p & q & ps & Hs)].
    + rewrite Hk, Hs. simpl.
      destruct (Ascii.eqb a c).
      * right. split; [lia|]. split; [reflexivity|].
        now exists EmptyString, r, [].
      * left. split; reflexivity.
    + destruct (Z.leb_spec 0 (lastIndexOf c r)) as [_|Hlt]; [|lia].
      right. split; [lia|]. split.
      * replace (Z.to_nat (lastIndexOf c r + 1 + 1))
          with (S (Z.to_nat (lastIndexOf c r + 1))) by lia.
        simpl. rewrite Hd, Hs.
        destruct (Ascii.eqb a c); reflexivity.
      * rewrite Hs. destruct (Ascii.eqb a c); eauto.
Qed.

Lemma substring_lastIndexOf c s :
  substring (lastIndexOf c s + 1) s = last (split c s) EmptyString.
Proof.
  unfold substring.
  destruct (lastIndexOf_split c s) as [[Hk Hs] | (_ & Hd & _)].
  - rewrite Hk, Hs. reflexivity.
  - exact Hd.
Qed.

Lemma split_after_separator c d seg :
  (exists p q ps, split c (d ++ String c seg)%string = p :: q :: ps) /\
  last (split c (d ++ String c seg)%string) EmptyString
  = last (split c seg) EmptyString.
Proof.
  induction d as [|a d IH]; simpl.
  - rewrite Ascii.eqb_refl.
    destruct (split c seg) as [|p ps] eqn:E.
    + exfalso. exact (split_not_nil c seg E).
    + split; [now exists EmptyString, p, ps | reflexivity].
  - destruct IH as [(p & q & ps & Hs) Hl].
    rewrite Hs in *.
    destruct (Ascii.eqb a c).
    + split; [eauto | exact Hl].
    + split; [eauto | exact Hl].
Qed.

Lemma truthy_prefix p u :
  p <> EmptyString -> startsWith p u = true -> truthy u = true.
Proof.
  destruct p; [congruence|]. destruct u; simpl; [discriminate | reflexivity].
Qed.

Lemma trimStart_spec s :
  exists l, s = (l ++ trimStart s)%string /\ allWhiteSpace l = true /\
            startsWithWhiteSpace (trimStart s) = false.
Proof.
  induction s as [|a r (l & Hs & Hl & Hh)]; simpl.
  - exists EmptyString. auto.
  - destruct (isWhiteSpace a) eqn:E.
    + exists (String a l). simpl. rewrite E, Hl. split; [congruence | auto].
    + exists EmptyString. simpl. auto.
Qed.

Lemma trimEnd_spec s :
  exists r, s = (trimEnd s ++ r)%string /\ allWhiteSpace r = true /\
            endsWithWhiteSpace (trimEnd s) = false /\
            startsWithWhiteSpace (trimEnd s) = startsWithWhiteSpace s
                                               && truthy (trimEnd s).
Proof.
  induction s as [|a s (r & Hs & Hr & He & Hh)]; simpl.
  - exists EmptyString. auto.
  - destruct (trimEnd s) as [|b t] eqn:E.
    + destruct (isWhiteSpace a) eqn:Ea.
      * exists (String a r). simpl in *. rewrite Ea, Hr.
        repeat split; congruence.
      * exists r. simpl in *. rewrite Ea. repeat split; congruence.
    + exists r. simpl in *. rewrite Bool.andb_true_r.
      repeat split; try congruence.
Qed.

(** [trim] removes white space, and only white space, at both ends. *)
Lemma trim_spec s :
  exists l r, s = (l ++ trim s ++ r)%string /\
              allWhiteSpace l = true /\ allWhiteSpace r = true /\
              startsWithWhiteSpace (trim s) = false /\
              endsWithWhiteSpace (trim s) = false.
Proof.
  unfold trim.
  destruct (trimStart_spec s) as (l & Hs & Hl & Hh).
  destruct (trimEnd_spec (trimStart s)) as (r & Hs' & Hr & He & Hh').
  exists l, r. repeat split; auto.
  - now rewrite <- Hs'.
  - rewrite Hh', Hh. reflexivity.
Qed.

Lemma trimStart_allWhiteSpace s :
  allWhiteSpace s = true -> trimStart s = EmptyString.
Proof.
  induction s as [|a r IH]; simpl; [reflexivity|].
  intros H. apply Bool.andb_true_iff in H as [Ha Hr]. rewrite Ha. auto.
Qed.

Lemma trim_allWhiteSpace s : allWhiteSpace s = true -> trim s = EmptyString.
Proof. intros H. unfold trim. now rewrite trimStart_allWhiteSpace. Qed.

End JsStringFacts.

(** ** The display name *)

(** C8.  For every link, [getFileNameFromUrl] gives the last path segment
    with query and fragment stripped and percent-decoding applied, and
    ["document.pdf"] when the link does not parse, the segment does not
    decode or the result is empty.  On a platform that parses
    ["https://host/path/report.pdf?x=1#y"] to the path
    ["/path/report.pdf"], the name is ["report.pdf"]; a link whose path ends
    in ["/%20name.pdf"] gets [" name.pdf"]. *)
Theorem getFileNameFromUrl_displayName (P : Platform) :
  (forall u, getFileNameFromUrl u = Described.displayName u) /\
  (forall u, newURL u = None -> getFileNameFromUrl u = "document.pdf") /\
  (forall u o,
     newURL u = Some o ->
     decodeURIComponent
       (Described.before "#"
          (Described.before "?" (Described.lastSegment (pathname o)))) = None ->
     getFileNameFromUrl u = "document.pdf") /\
  (forall u o,
     newURL u = Some o ->
     decodeURIComponent
       (Described.before "#"
          (Described.before "?" (Described.lastSegment (pathname o))))
     = Some EmptyString ->
     getFileNameFromUrl u = "document.pdf") /\
  (forall o,
     newURL "https://host/path/report.pdf?x=1#y" = Some o ->
     pathname o = "/path/report.pdf" ->
     decodeURIComponent "report.pdf" = Some "report.pdf" ->
     getFileNameFromUrl "https://host/path/report.pdf?x=1#y" = "report.pdf") /\
  (forall u o dir,
     newURL u = Some o ->
     pathname o = (dir ++ "/%20name.pdf")%string ->
     decodeURIComponent "%20name.pdf" = Some " name.pdf" ->
     getFileNameFromUrl u = " name.pdf").
Proof.
  assert (E : forall u, getFileNameFromUrl u = Described.displayName u).
  { intros u. unfold getFileNameFromUrl, Described.displayName.
    destruct (newURL u) as [o|]; [|reflexivity].
    rewrite JsStringFacts.substring_lastIndexOf.
    rewrite !JsStringFacts.first_split.
    fold (Described.lastSegment (pathname o)).
    destruct (decodeURIComponent _) as [[|a d]|]; reflexivity. }
  split; [exact E|].
  split; [|split; [|split; [|split]]].
  - intros u H. rewrite E. unfold Described.displayName. now rewrite H.
  - intros u o H H'. rewrite E. unfold Described.displayName.
    now rewrite H, H'.
  - intros u o H H'. rewrite E. unfold Described.displayName.
    now rewrite H, H'.
  - intros o H Hp Hd. rewrite E. unfold Described.displayName.
    rewrite H, Hp.
    change (Described.before "#"
              (Described.before "?" (Described.lastSegment "/path/report.pdf")))
      with "report.pdf".
    now rewrite Hd.
  - intros u o dir H Hp Hd. rewrite E. unfold Described.displayName.
    rewrite H, Hp. unfold Described.lastSegment.
    change (dir ++ "/%20name.pdf")%string
      with (dir ++ String "/" "%20name.pdf")%string.
    rewrite (proj2 (JsStringFacts.split_after_separator "/" dir "%20name.pdf")).
    change (Described.before "#"
              (Described.before "?"
                 (last (JsString.split "/" "%20name.pdf") EmptyString)))
      with "%20name.pdf".
    now rewrite Hd.
Qed.

Lemma getFileNameFromUrl_displayName_witness :
  getFileNameFromUrl (P := Sample.platform) "nonsense" = "document.pdf" /\
  getFileNameFromUrl (P := Sample.platform) "https://host/a%zz"
  = "document.pdf" /\
  getFileNameFromUrl (P := Sample.platform) "https://host/" = "document.pdf" /\
  getFileNameFromUrl (P := Sample.platform)
    "https://host/path/report.pdf?x=1#y" = "report.pdf" /\
  getFileNameFromUrl (P := Sample.platform) "https://host/dir/%20name.pdf"
  = " name.pdf".
Proof.
  destruct (getFileNameFromUrl_displayName Sample.platform)
    as (_ & H1 & H2 & H3 & H4 & H5).
  split; [apply H1; reflexivity|].
  split; [apply (H2 _ "/a%zz"); reflexivity|].
  split; [apply (H3 _ "/"); reflexivity|].
  split; [apply (H4 "/path/report.pdf"); reflexivity|].
  apply (H5 _ "/dir/%20name.pdf" "/dir"); reflexivity.
Defined.

(** ** Adding links *)

Section ProcessUrlsFacts.
Context {P : Platform}.

Lemma isValidUrl_scheme u : isValidUrl u = Described.hasAllowedScheme u.
Proof.
  unfold isValidUrl, Described.hasAllowedScheme.
  destruct (JsString.startsWith "http://" u) eqn:E1.
  - now rewrite (JsStringFacts.truthy_prefix "http://" u).
  - destruct (JsString.startsWith "https://" u) eqn:E2.
    + now rewrite (JsStringFacts.truthy_prefix "https://" u).
    + apply Bool.andb_false_r.
Qed.

Lemma validUrls_trimmed urls :
  validUrls urls
  = filter Described.hasAllowedScheme (map JsString.trim urls).
Proof. apply filter_ext. exact isValidUrl_scheme. Qed.

Lemma processUrls_tasks urls s :
  tasks (processUrls urls s)
  = tasks s ++ newTasks (uuidCalls s) (validUrls urls).
Proof.
  unfold processUrls.
  destruct (validUrls urls) as [|u v]; simpl; [now rewrite app_nil_r|].
  reflexivity.
Qed.

Lemma processUrls_uuidCalls urls s :
  uuidCalls (processUrls urls s)
  = (uuidCalls s + List.length (validUrls urls))%nat.
Proof.
  unfold processUrls.
  destruct (validUrls urls) as [|u v]; simpl; [lia | reflexivity].
Qed.

Lemma processUrls_frame urls s :
  isProcessing (processUrls urls s) = isProcessing s /\
  world (processUrls urls s) = world s /\
  tasksToProcess (processUrls urls s) = tasksToProcess s /\
  loop_i (processUrls urls s) = loop_i s /\
  pc (processUrls urls s) = pc s.
Proof.
  unfold processUrls.
  destruct (List.length (validUrls urls) =? 0)%nat; simpl; auto.
Qed.

Lemma newTasks_url k v : map url (newTasks k v) = v.
Proof. revert k. induction v; intros k; simpl; [|rewrite IHv]; reflexivity. Qed.

Lemma newTasks_id k v :
  map id (newTasks k v) = map uuidv4 (seq k (List.length v)).
Proof. revert k. induction v; intros k; simpl; [|rewrite IHv]; reflexivity. Qed.

Lemma newTasks_fresh k v :
  Forall (fun t => fresh_task t /\ fileName t = getFileNameFromUrl (url t))
    (newTasks k v).
Proof.
  revert k. induction v; intros k; simpl; constructor; auto.
  unfold fresh_task; simpl; auto.
Qed.

Context {L : PlatformLaws P}.

Lemma newTasks_NoDup k v : NoDup (map id (newTasks k v)).
Proof.
  rewrite newTasks_id. apply Injective_map_NoDup.
  - intros x y. apply uuidv4_inj.
  - apply seq_NoDup.
Qed.

Lemma newTasks_not_issued s v t :
  issued s -> In t (newTasks (uuidCalls s) v) ->
  ~ In (id t) (map id (tasks s)).
Proof.
  intros Hi Ht Hin.
  apply (in_map id) in Ht. rewrite newTasks_id in Ht.
  apply in_map_iff in Ht as (j & Hj & Hseq). apply in_seq in Hseq.
  apply in_map_iff in Hin as (t' & Ht' & Hin).
  destruct (Hi _ Hin) as (k & Hk & Hid).
  assert (j = k) by (apply uuidv4_inj; congruence). lia.
Qed.

End ProcessUrlsFacts.

(** C7, amended.  For every input sequence, [processUrls] appends at the
    tail of the queue, in input order, one task for each string whose
    trimmed form starts with ["http://"] or ["https://"]: its link is the
    trimmed string, its status IDLE, its name derived from the link, its
    identifier drawn anew (unlike any in the queue and any other drawn).
    Every other string is dropped.  The three strings
    ["https://a/x.pdf"], ["not-a-url"], ["https://b/y.pdf"] give exactly two
    new IDLE tasks. *)
Theorem processUrls_appends (P : Platform) (L : PlatformLaws P)
    (urls : list string) (s : State) :
  let kept := filter Described.hasAllowedScheme (map JsString.trim urls) in
  let new := newTasks (uuidCalls s) kept in
  tasks (processUrls urls s) = tasks s ++ new /\
  map url new = kept /\
  Forall (fun t => fresh_task t /\ fileName t = getFileNameFromUrl (url t))
    new /\
  NoDup (map id new) /\
  (issued s -> forall t, In t new -> ~ In (id t) (map id (tasks s))) /\
  tasks (processUrls Sample.three_links s)
  = tasks s ++
    [ mkTask (uuidv4 (uuidCalls s)) "https://a/x.pdf"
        (getFileNameFromUrl "https://a/x.pdf") None IDLE None;
      mkTask (uuidv4 (S (uuidCalls s))) "https://b/y.pdf"
        (getFileNameFromUrl "https://b/y.pdf") None IDLE None ].
Proof.
  intros kept new. subst new kept. rewrite <- validUrls_trimmed.
  split; [apply processUrls_tasks|].
  split; [apply newTasks_url|].
  split; [apply newTasks_fresh|].
  split; [apply newTasks_NoDup|].
  split; [intros Hi t; now apply newTasks_not_issued|].
  rewrite processUrls_tasks. reflexivity.
Qed.

(** C7 as written fails: a string with a leading blank does not start with
    an allowed prefix, yet it is not dropped. *)
Lemma processUrls_keeps_untrimmed :
  let raw := " https://a/x.pdf" in
  let s := Sample.start in
  Described.hasAllowedScheme raw = false /\
  Described.append [raw] s = [] /\
  tasks (processUrls [raw] s)
  = [mkTask "u" "https://a/x.pdf" "x.pdf" None IDLE None] /\
  tasks (processUrls [raw] s) <> Described.append [raw] s.
Proof.
  cbv zeta. repeat split; discriminate.
Qed.

(** C10.  [processUrls] trims every input string before it filters: the
    links of the new tasks are the trimmed strings that pass, where
    trimming removes white space, and only white space, at both ends; an
    empty or blank string adds nothing; and ["  https://a/x.pdf  "] gives a
    task whose link differs from the string. *)
Theorem processUrls_trims (P : Platform) (urls : list string) (s : State) :
  (exists new,
     tasks (processUrls urls s) = tasks s ++ new /\
     map url new
     = filter Described.hasAllowedScheme (map JsString.trim urls)) /\
  (forall u, exists l r,
     u = (l ++ JsString.trim u ++ r)%string /\
     JsString.allWhiteSpace l = true /\ JsString.allWhiteSpace r = true /\
     JsString.startsWithWhiteSpace (JsString.trim u) = false /\
     JsString.endsWithWhiteSpace (JsString.trim u) = false) /\
  (forall u, JsString.allWhiteSpace u = true ->
     processUrls (u :: urls) s = processUrls urls s) /\
  (exists t,
     tasks (processUrls ["  https://a/x.pdf  "] s) = tasks s ++ [t] /\
     url t = "https://a/x.pdf" /\ url t <> "  https://a/x.pdf  ").
Proof.
  split; [|split; [|split]].
  - exists (newTasks (uuidCalls s) (validUrls urls)).
    split; [apply processUrls_tasks|].
    rewrite newTasks_url. apply validUrls_trimmed.
  - exact JsStringFacts.trim_spec.
  - intros u Hu. unfold processUrls, validUrls. simpl.
    rewrite (JsStringFacts.trim_allWhiteSpace u Hu). reflexivity.
  - eexists. split; [rewrite processUrls_tasks; reflexivity|].
    simpl. split; [reflexivity | discriminate].
Qed.

Lemma processUrls_trims_witness :
  JsString.allWhiteSpace "   " = true /\
  processUrls ["   "; "https://a/x.pdf"] Sample.start
  = processUrls ["https://a/x.pdf"] Sample.start.
Proof.
  split; [reflexivity|].
  destruct (processUrls_trims Sample.platform ["https://a/x.pdf"] Sample.start)
    as (_ & _ & H & _).
  apply H. reflexivity.
Defined.

(** ** The run *)

Section ListFacts.

Lemma patch_id p t : id (patch p t) = id t.
Proof. destruct p; reflexivity. Qed.

Lemma patch_url p t : url (patch p t) = url t.
Proof. destruct p; reflexivity. Qed.

Lemma patch_fileName p t : fileName (patch p t) = fileName t.
Proof. destruct p; reflexivity. Qed.

Lemma updateTask_ids k p l : map id (updateTask k p l) = map id l.
Proof.
  unfold updateTask. rewrite map_map. apply map_ext.
  intros t. destruct (String.eqb (id t) k); [apply patch_id | reflexivity].
Qed.

Lemma updateTask_app k p a b :
  updateTask k p (a ++ b) = updateTask k p a ++ updateTask k p b.
Proof. apply map_app. Qed.

Lemma updateTask_other k p l : ~ In k (map id l) -> updateTask k p l = l.
Proof.
  induction l as [|t l IH]; simpl; intros H; [reflexivity|].
  destruct (String.eqb_spec (id t) k) as [E|_]; [tauto|].
  rewrite IH; tauto.
Qed.

Lemma updateTask_middle p a x b :
  NoDup (map id (a ++ x :: b)) ->
  updateTask (id x) p (a ++ x :: b) = a ++ patch p x :: b.
Proof.
  intros H. rewrite map_app in H. simpl in H.
  pose proof (NoDup_remove_2 _ _ _ H) as Hx.
  rewrite updateTask_app. simpl. rewrite String.eqb_refl.
  rewrite !updateTask_other; [reflexivity | |];
    intro; apply Hx; apply in_or_app; auto.
Qed.

Lemma updateTask_keeps k p x l :
  In x l -> id x <> k -> In x (updateTask k p l).
Proof.
  intros Hin Hne. unfold updateTask. apply in_map_iff. exists x.
  destruct (String.eqb_spec (id x) k); [contradiction | auto].
Qed.

Lemma same_id_same_task (l : list PdfTask) a b :
  NoDup (map id l) -> In a l -> In b l -> id a = id b -> a = b.
Proof.
  induction l as [|t l IH]; simpl; [tauto|].
  intros H Ha Hb E. inversion H as [|? ? Hn Hl]; subst.
  destruct Ha as [<-|Ha], Hb as [<-|Hb]; auto.
  - exfalso. apply Hn. rewrite E. now apply in_map.
  - exfalso. apply Hn. rewrite <- E. now apply in_map.
Qed.

Lemma nth_error_at_length {A} (a b : list A) :
  nth_error (a ++ b) (List.length a) = hd_error b.
Proof.
  rewrite nth_error_app2 by lia. rewrite Nat.sub_diag.
  destruct b; reflexivity.
Qed.

Lemma skipn_at_length {A} (a b : list A) : skipn (List.length a) (a ++ b) = b.
Proof.
  rewrite skipn_app, Nat.sub_diag, skipn_all. reflexivity.
Qed.

Lemma skipn_nth_error {A} (l : list A) i x :
  nth_error l i = Some x -> skipn i l = x :: skipn (S i) l.
Proof.
  revert i. induction l as [|a l IH]; intros [|i] H; simpl in *;
    try discriminate.
  - now inversion H.
  - now apply IH.
Qed.

Lemma skipn_nth_error_None {A} (l : list A) i :
  nth_error l i = None -> skipn i l = [].
Proof.
  intros H. apply nth_error_None in H. now apply skipn_all2.
Qed.

Lemma Forall2_snoc {A B} (R : A -> B -> Prop) l1 l2 a b :
  Forall2 R l1 l2 -> R a b -> Forall2 R (l1 ++ [a]) (l2 ++ [b]).
Proof. intros H1 H2. apply Forall2_app; auto. Qed.

Lemma Forall2_right {A B} (R : A -> B -> Prop) l1 l2 y :
  Forall2 R l1 l2 -> In y l2 -> exists x, In x l1 /\ R x y.
Proof.
  induction 1 as [|a b l1 l2 Hab _ IH]; simpl; [tauto|].
  intros [<-|Hy]; [eauto|].
  destruct (IH Hy) as (x & Hx & Hr). eauto.
Qed.

Lemma Forall2_left {A B} (R : A -> B -> Prop) l1 l2 x :
  Forall2 R l1 l2 -> In x l1 -> exists y, In y l2 /\ R x y.
Proof.
  induction 1 as [|a b l1 l2 Hab _ IH]; simpl; [tauto|].
  intros [<-|Hx]; [eauto|].
  destruct (IH Hx) as (y & Hy & Hr). eauto.
Qed.

Lemma processed_ids sdone done :
  Forall2 processed sdone done -> map id done = map id sdone.
Proof.
  induction 1 as [|x y ? ? (E & _) _ IH]; simpl; [reflexivity|].
  now rewrite E, IH.
Qed.

Lemma choose_app {A B} (f : A -> option B) l1 l2 :
  choose f (l1 ++ l2) = choose f l1 ++ choose f l2.
Proof.
  induction l1 as [|a l1 IH]; simpl; [reflexivity|].
  destruct (f a); simpl; now rewrite IH.
Qed.

Lemma task_ok_fresh t : fresh_task t -> settled t.
Proof.
  intros (Hs & Hp & He). unfold settled, task_ok, isSet.
  rewrite Hs, Hp, He. repeat split; try congruence; auto.
Qed.

Lemma terminal_settled t : terminal t -> settled t.
Proof. intros (H & [E|E]); split; auto. Qed.

Lemma settled_untouched t :
  settled t -> status t <> COMPLETED -> pageCount t = None.
Proof.
  intros ((Hp & _) & _) Hn. unfold isSet in Hp.
  destruct (pageCount t); [|reflexivity].
  exfalso. apply Hn, Hp. discriminate.
Qed.

Lemma downloading_ok t :
  settled t -> status t <> COMPLETED -> task_ok (patch ToDownloading t).
Proof.
  intros Hs Hn. pose proof (settled_untouched _ Hs Hn) as Hp.
  unfold task_ok, isSet; simpl. rewrite Hp.
  repeat split; try congruence; discriminate.
Qed.

Lemma analyzing_ok t :
  settled t -> status t <> COMPLETED ->
  task_ok (patch ToAnalyzing (patch ToDownloading t)).
Proof.
  intros Hs Hn. pose proof (settled_untouched _ Hs Hn) as Hp.
  unfold task_ok, isSet; simpl. rewrite Hp.
  repeat split; try congruence; discriminate.
Qed.

Lemma failed_terminal t e :
  settled t -> status t <> COMPLETED ->
  terminal (patch (ToFailed e) (patch ToDownloading t)) /\
  terminal (patch (ToFailed e) (patch ToAnalyzing (patch ToDownloading t))).
Proof.
  intros Hs Hn. pose proof (settled_untouched _ Hs Hn) as Hp.
  unfold terminal, task_ok, isSet; simpl. rewrite Hp.
  repeat split; try congruence; try discriminate; auto.
Qed.

Lemma completed_terminal t n :
  settled t -> status t <> COMPLETED -> (0 <= n)%Z ->
  terminal (patch (ToCompleted n) (patch ToAnalyzing (patch ToDownloading t))).
Proof.
  intros Hs Hn Hpos.
  unfold terminal, task_ok, isSet; simpl.
  repeat split; try congruence; try discriminate; auto.
Qed.

Lemma TaskStatus_eqb_spec a b : reflect (a = b) (TaskStatus_eqb a b).
Proof. destruct a, b; constructor; congruence. Qed.

End ListFacts.

Section RunFacts.
Context {P : Platform} {L : PlatformLaws P}.

Lemma getPageCount_nonneg b w n w1 :
  getPageCount b w = (Resolved n, w1) -> (0 <= n)%Z.
Proof.
  unfold getPageCount, bind, ret.
  destruct (arrayBuffer b w) as [[buf|e] w2]; [|discriminate].
  destruct (getDocument buf w2) as [[pdf|e] w3]; [|discriminate].
  intros H. inversion H. apply numPages_nonneg.
Qed.

Lemma issued_ids s s1 :
  map id (tasks s1) = map id (tasks s) ->
  (uuidCalls s <= uuidCalls s1)%nat -> issued s -> issued s1.
Proof.
  intros E Hle Hi t Ht.
  apply (in_map id) in Ht. rewrite E in Ht.
  apply in_map_iff in Ht as (t0 & E0 & Ht0).
  destruct (Hi _ Ht0) as (k & Hk & Hid).
  exists k. split; [lia | congruence].
Qed.

Lemma cursor_same p t cur :
  cursor p = Some (t, cur) ->
  id cur = id t /\ url cur = url t /\ fileName cur = fileName t /\
  p <> NotRunning.
Proof.
  destruct p; simpl; intros H; inversion H; subst; simpl;
    repeat split; discriminate.
Qed.

Lemma Progress_finishTask s t cur p w :
  Progress s -> cursor (pc s) = Some (t, cur) -> terminal (patch p cur) ->
  Progress (snd (finishTask t p w s)).
Proof.
  intros (Hnd & Hiss & sdone & todo & done & extra &
          Hlen & Hproc & Htodo & Hextra & Hflag & Hcur) Hc Hterm.
  destruct (cursor_same _ _ _ Hc) as (Eid & Eurl & Ename & Hpc).
  rewrite Hc in Hcur. destruct Hcur as (HS & HT & Hset & Hnc).
  assert (Hrun : isProcessing s = true) by (destruct (pc s); tauto).
  assert (HT' : updateTask (id t) p (tasks s)
                = done ++ patch p cur :: todo ++ extra).
  { rewrite <- Eid. rewrite HT. apply updateTask_middle. now rewrite <- HT. }
  unfold Progress; simpl.
  split; [now rewrite updateTask_ids|].
  split; [apply (issued_ids s); simpl;
          [apply updateTask_ids | lia | exact Hiss]|].
  exists (sdone ++ [t]), todo, (done ++ [patch p cur]), extra.
  split; [rewrite length_app; simpl; lia|].
  split.
  { apply Forall2_snoc; [exact Hproc|].
    unfold processed. rewrite patch_id, patch_url, patch_fileName.
    repeat split; try tauto; try congruence; apply Hterm. }
  split; [exact Htodo|]. split; [exact Hextra|]. split; [exact Hrun|].
  rewrite HS, HT', <- !app_assoc. split; reflexivity.
Qed.

Lemma Progress_cursor s t cur :
  Progress s -> cursor (pc s) = Some (t, cur) ->
  settled t /\ status t <> COMPLETED.
Proof.
  intros (_ & _ & ? & ? & ? & ? & _ & _ & _ & _ & _ & Hcur) Hc.
  rewrite Hc in Hcur. tauto.
Qed.

Lemma Progress_step s e s1 :
  Progress s -> step s = Some (e, s1) -> Progress s1.
Proof.
  intros HP Hstep. unfold step in Hstep.
  destruct (pc s) as [| |task|task r|task b] eqn:Epc.
  - discriminate.
  - (* the test of the loop *)
    destruct HP as (Hnd & Hiss & sdone & todo & done & extra &
                    Hlen & Hproc & Htodo & Hextra & Hflag & Hcur).
    rewrite Epc in Hflag, Hcur. simpl in Hcur. destruct Hcur as (HS & HT).
    rewrite HS, <- Hlen, nth_error_at_length in Hstep.
    destruct todo as [|task todo]; simpl in Hstep.
    + inversion Hstep; subst; clear Hstep.
      unfold Progress; simpl. split; [exact Hnd|]. split; [exact Hiss|].
      exists sdone, [], done, extra. rewrite Hlen. auto 10.
    + inversion Htodo as [|? ? Htask Htodo']; subst. simpl in HT.
      destruct (TaskStatus_eqb_spec (status task) COMPLETED) as [Ec|Ec];
        inversion Hstep; subst; clear Hstep.
      * unfold Progress; simpl. split; [exact Hnd|]. split; [exact Hiss|].
        exists (sdone ++ [task]), todo, (done ++ [task]), extra.
        split; [rewrite length_app; simpl; lia|].
        split.
        { apply Forall2_snoc; [exact Hproc|].
          unfold processed, terminal. destruct Htask. tauto. }
        rewrite HT, <- !app_assoc. auto 10.
      * assert (HT' : updateTask (id task) ToDownloading (tasks s)
                      = done ++ patch ToDownloading task :: todo ++ extra).
        { rewrite HT. apply updateTask_middle. now rewrite <- HT. }
        unfold Progress; simpl.
        split; [now rewrite updateTask_ids|].
        split; [apply (issued_ids s); simpl;
                [apply updateTask_ids | lia | exact Hiss]|].
        exists sdone, todo, done, extra. rewrite Hlen. auto 10.
  - (* the response *)
    destruct (fetch (url task) (world s)) as [[response|msg] w].
    + destruct (ok response); simpl in Hstep;
        inversion Hstep; subst; clear Hstep.
      * destruct HP as (Hnd & Hiss & sdone & todo & done & extra &
                        Hlen & Hproc & Htodo & Hextra & Hflag & Hcur).
        rewrite Epc in Hflag, Hcur.
        unfold Progress; simpl. split; [exact Hnd|]. split; [exact Hiss|].
        exists sdone, todo, done, extra. auto 10.
      * apply Progress_finishTask with (cur := patch ToDownloading task); auto.
        { now rewrite Epc. }
        destruct (Progress_cursor s task (patch ToDownloading task) HP) as (Hset & Hnc); [now rewrite Epc|].
        now apply failed_terminal.
    + inversion Hstep; subst; clear Hstep.
      apply Progress_finishTask with (cur := patch ToDownloading task); auto.
      { now rewrite Epc. }
      destruct (Progress_cursor s task (patch ToDownloading task) HP) as (Hset & Hnc); [now rewrite Epc|].
      now apply failed_terminal.
  - (* the body *)
    destruct (blob r (world s)) as [[b|msg] w];
      inversion Hstep; subst; clear Hstep.
    + destruct HP as (Hnd & Hiss & sdone & todo & done & extra &
                      Hlen & Hproc & Htodo & Hextra & Hflag & Hcur).
      rewrite Epc in Hflag, Hcur. cbn [cursor] in Hcur.
      destruct Hcur as (HS & HT & Hset & Hnc).
      assert (HT' : updateTask (id task) ToAnalyzing (tasks s)
                    = done ++ patch ToAnalyzing (patch ToDownloading task)
                        :: todo ++ extra).
      { rewrite HT.
        apply (updateTask_middle ToAnalyzing done
                 (patch ToDownloading task) (todo ++ extra)).
        now rewrite <- HT. }
      unfold Progress; simpl.
      split; [now rewrite updateTask_ids|].
      split; [apply (issued_ids s); simpl;
              [apply updateTask_ids | lia | exact Hiss]|].
      exists sdone, todo, done, extra. auto 10.
    + apply Progress_finishTask with (cur := patch ToDownloading task); auto.
      { now rewrite Epc. }
      destruct (Progress_cursor s task (patch ToDownloading task) HP) as (Hset & Hnc); [now rewrite Epc|].
      now apply failed_terminal.
  - (* the page count *)
    destruct (Progress_cursor s task
                (patch ToAnalyzing (patch ToDownloading task)) HP)
      as (Hset & Hnc); [now rewrite Epc|].
    destruct (getPageCount b (world s)) as [[n|msg] w] eqn:Ecount;
      inversion Hstep; subst; clear Hstep.
    + apply Progress_finishTask
        with (cur := patch ToAnalyzing (patch ToDownloading task)); auto.
      { now rewrite Epc. }
      apply completed_terminal; auto. exact (getPageCount_nonneg _ _ _ _ Ecount).
    + apply Progress_finishTask
        with (cur := patch ToAnalyzing (patch ToDownloading task)); auto.
      { now rewrite Epc. }
      now apply failed_terminal.
Qed.

Lemma processUrls_ids urls s :
  NoDup (map id (tasks s)) -> issued s ->
  NoDup (map id (tasks (processUrls urls s))) /\ issued (processUrls urls s).
Proof.
  intros Hnd Hiss. rewrite processUrls_tasks. split.
  - rewrite map_app. apply NoDup_app; [exact Hnd | apply newTasks_NoDup |].
    intros k Hk Hk'. apply in_map_iff in Hk' as (t & <- & Ht).
    eapply newTasks_not_issued; eauto.
  - intros t Ht. rewrite processUrls_uuidCalls.
    rewrite processUrls_tasks in Ht. apply in_app_or in Ht as [Ht|Ht].
    + destruct (Hiss _ Ht) as (k & Hk & E). exists k. split; [lia | exact E].
    + apply (in_map id) in Ht. rewrite newTasks_id in Ht.
      apply in_map_iff in Ht as (j & E & Hj). apply in_seq in Hj.
      exists j. split; [lia | now symmetry].
Qed.

Lemma newTasks_all_fresh k v : Forall fresh_task (newTasks k v).
Proof.
  eapply Forall_impl; [|apply newTasks_fresh]. simpl. tauto.
Qed.

Lemma Progress_processUrls urls s : Progress s -> Progress (processUrls urls s).
Proof.
  intros (Hnd & Hiss & sdone & todo & done & extra &
          Hlen & Hproc & Htodo & Hextra & Hflag & Hcur).
  destruct (processUrls_ids urls s Hnd Hiss) as (Hnd' & Hiss').
  destruct (processUrls_frame urls s) as (Ep & _ & ES & Ei & Epc).
  split; [exact Hnd'|]. split; [exact Hiss'|].
  exists sdone, todo, done,
    (extra ++ newTasks (uuidCalls s) (validUrls urls)).
  rewrite Ei, Epc, Ep, ES, processUrls_tasks.
  split; [exact Hlen|]. split; [exact Hproc|]. split; [exact Htodo|].
  split; [apply Forall_app; split; [exact Hextra | apply newTasks_all_fresh]|].
  split; [exact Hflag|].
  destruct (cursor (pc s)) as [[t cur]|].
  - destruct Hcur as (HS & HT & Hrest). rewrite HT.
    split; [exact HS|]. split; [|exact Hrest].
    now rewrite <- !app_assoc, <- app_comm_cons, <- !app_assoc.
  - destruct Hcur as (HS & HT). rewrite HT.
    split; [exact HS|]. now rewrite <- !app_assoc.
Qed.

Lemma Quiescent_processUrls urls s :
  Quiescent s -> Quiescent (processUrls urls s).
Proof.
  intros (Hpc & Hip & Hnd & Hiss & Hall).
  destruct (processUrls_ids urls s Hnd Hiss) as (Hnd' & Hiss').
  destruct (processUrls_frame urls s) as (Ep & _ & _ & _ & Epc).
  unfold Quiescent.
  split; [congruence|]. split; [congruence|].
  split; [exact Hnd'|]. split; [exact Hiss'|].
  rewrite processUrls_tasks.
  apply Forall_app. split; [exact Hall|].
  eapply Forall_impl; [|apply newTasks_all_fresh].
  exact task_ok_fresh.
Qed.

Lemma NoDup_ids_filter (f : PdfTask -> bool) l :
  NoDup (map id l) -> NoDup (map id (filter f l)).
Proof.
  induction l as [|t l IH]; simpl; intros H; [constructor|].
  inversion H as [|? ? Hn Hl]; subst.
  destruct (f t); simpl; auto.
  constructor; auto.
  intros Hin. apply Hn. apply in_map_iff in Hin as (x & E & Hx).
  apply filter_In in Hx as (Hx & _). apply in_map_iff. eauto.
Qed.

Lemma Quiescent_removeTask k s : Quiescent s -> Quiescent (removeTask k s).
Proof.
  intros (Hpc & Hip & Hnd & Hiss & Hall).
  unfold Quiescent; simpl. repeat split; auto.
  - now apply NoDup_ids_filter.
  - intros t Ht. apply filter_In in Ht as (Ht & _). exact (Hiss _ Ht).
  - apply Forall_forall. intros t Ht. apply filter_In in Ht as (Ht & _).
    rewrite Forall_forall in Hall. auto.
Qed.

Lemma Quiescent_clearAll s : Quiescent s -> Quiescent (clearAll s).
Proof.
  intros (Hpc & Hip & Hnd & Hiss & Hall).
  unfold Quiescent; simpl. repeat split; auto; try constructor.
  intros t [].
Qed.

Lemma Quiescent_runTasks s : Quiescent s -> Progress (runTasks s).
Proof.
  intros (Hpc & Hip & Hnd & Hiss & Hall).
  unfold Progress; simpl. split; [exact Hnd|]. split; [exact Hiss|].
  exists [], (tasks s), [], []. rewrite app_nil_r.
  repeat split; auto.
Qed.

Lemma Progress_returned s : Progress s -> pc s = NotRunning -> Quiescent s.
Proof.
  intros (Hnd & Hiss & sdone & todo & done & extra &
          Hlen & Hproc & Htodo & Hextra & Hflag & Hcur) Hpc.
  rewrite Hpc in Hflag, Hcur. simpl in Hcur.
  destruct Hflag as (Hip & ->). destruct Hcur as (_ & HT).
  unfold Quiescent. rewrite HT. repeat split; auto.
  - now rewrite <- HT.
  - simpl. apply Forall_app. split.
    + apply Forall_forall. intros t Ht.
      destruct (Forall2_right _ _ _ _ Hproc Ht) as (t0 & _ & Hp).
      apply terminal_settled. apply Hp.
    + eapply Forall_impl; [|exact Hextra]. exact task_ok_fresh.
Qed.

Lemma Progress_running s : Progress s -> isProcessing s = false -> pc s = NotRunning.
Proof.
  intros (_ & _ & ? & ? & ? & ? & _ & _ & _ & _ & Hflag & _) Hip.
  destruct (pc s); congruence.
Qed.

Lemma Inv_Quiescent s : Inv s -> isProcessing s = false -> Quiescent s.
Proof.
  unfold Inv. intros H Hip.
  destruct (pc s) eqn:Epc; auto;
    pose proof (Progress_running _ H Hip); congruence.
Qed.

Lemma Progress_Inv s : Progress s -> Inv s.
Proof.
  intros H. unfold Inv. destruct (pc s) eqn:Epc; auto.
  now apply Progress_returned.
Qed.

Lemma reachable_Inv s : reachable s -> Inv s.
Proof.
  induction 1 as [w|s urls _ IH|s k _ IH Hip|s _ IH Hip|s _ IH Hip
                  |s e s1 _ IH Hstep].
  - unfold Inv, Quiescent; simpl. repeat split; try constructor.
    intros t [].
  - unfold Inv in *.
    destruct (processUrls_frame urls s) as (_ & _ & _ & _ & Epc).
    rewrite Epc.
    destruct (pc s); auto using Quiescent_processUrls, Progress_processUrls.
  - pose proof (Inv_Quiescent _ IH Hip) as HQ.
    pose proof (Quiescent_removeTask k _ HQ) as HQ'.
    unfold Inv. now rewrite (proj1 HQ').
  - pose proof (Inv_Quiescent _ IH Hip) as HQ.
    pose proof (Quiescent_clearAll _ HQ) as HQ'.
    unfold Inv. now rewrite (proj1 HQ').
  - apply Progress_Inv, Quiescent_runTasks. exact (Inv_Quiescent _ IH Hip).
  - apply Progress_Inv. apply (Progress_step s e); auto.
    unfold Inv in IH. unfold step in Hstep.
    destruct (pc s); auto; discriminate.
Qed.

Lemma exec_Progress s tr s1 : exec s tr s1 -> Progress s -> Progress s1.
Proof.
  induction 1 as [s|s e s1 tr s2 Hstep _ IH|s urls tr s2 _ IH]; intros HP.
  - exact HP.
  - apply IH. exact (Progress_step _ _ _ HP Hstep).
  - apply IH. now apply Progress_processUrls.
Qed.

(** *** What the invariant gives *)

Lemma Progress_tasks_ok s : Progress s -> Forall task_ok (tasks s).
Proof.
  intros HP.
  pose proof HP as (Hnd & Hiss & sdone & todo & done & extra &
                    Hlen & Hproc & Htodo & Hextra & Hflag & Hcur).
  assert (Hdone : Forall task_ok done).
  { apply Forall_forall. intros t Ht.
    destruct (Forall2_right _ _ _ _ Hproc Ht) as (t0 & _ & Hp).
    apply Hp. }
  assert (Hrest : Forall task_ok (todo ++ extra)).
  { apply Forall_app. split.
    - eapply Forall_impl; [|exact Htodo]. intros t Ht. apply Ht.
    - eapply Forall_impl; [|exact Hextra]. intros t Ht.
      apply task_ok_fresh, Ht. }
  destruct (cursor (pc s)) as [[t cur]|] eqn:Ec.
  - destruct Hcur as (_ & HT & Hset & Hnc). rewrite HT.
    apply Forall_app. split; [exact Hdone|]. constructor; [|exact Hrest].
    destruct (pc s); cbn [cursor] in Ec; inversion Ec; subst;
      first [now apply downloading_ok | now apply analyzing_ok].
  - destruct Hcur as (_ & HT). rewrite HT.
    apply Forall_app. split; assumption.
Qed.

Lemma Inv_tasks_ok s : Inv s -> Forall task_ok (tasks s).
Proof.
  unfold Inv. intros H.
  destruct (pc s); try (now apply Progress_tasks_ok).
  destruct H as (_ & _ & _ & _ & Hall).
  eapply Forall_impl; [|exact Hall]. intros t Ht. apply Ht.
Qed.

Lemma countInFlight_app a b :
  countInFlight (a ++ b) = (countInFlight a + countInFlight b)%nat.
Proof. unfold countInFlight. now rewrite filter_app, length_app. Qed.

Lemma countInFlight_settled l : Forall settled l -> countInFlight l = 0%nat.
Proof.
  unfold countInFlight. induction 1 as [|t l (_ & Ht) _ IH]; simpl; auto.
  unfold inFlight. destruct Ht as [E|[E|E]]; rewrite E; simpl; exact IH.
Qed.

Lemma Progress_inFlight s :
  Progress s ->
  countInFlight (tasks s)
  = match cursor (pc s) with None => 0%nat | Some _ => 1%nat end.
Proof.
  intros (Hnd & Hiss & sdone & todo & done & extra &
          Hlen & Hproc & Htodo & Hextra & Hflag & Hcur).
  assert (Hdone : countInFlight done = 0%nat).
  { apply countInFlight_settled, Forall_forall. intros t Ht.
    destruct (Forall2_right _ _ _ _ Hproc Ht) as (t0 & _ & Hp).
    apply terminal_settled, Hp. }
  assert (Hrest : countInFlight (todo ++ extra) = 0%nat).
  { apply countInFlight_settled, Forall_app. split; [exact Htodo|].
    eapply Forall_impl; [|exact Hextra]. exact task_ok_fresh. }
  destruct (cursor (pc s)) as [[t cur]|] eqn:Ec.
  - destruct Hcur as (_ & HT & _). rewrite HT.
    change (cur :: todo ++ extra) with ([cur] ++ (todo ++ extra)).
    rewrite countInFlight_app, (countInFlight_app [cur]), Hdone, Hrest.
    destruct (pc s); simpl in Ec; inversion Ec; reflexivity.
  - destruct Hcur as (_ & HT). rewrite HT, countInFlight_app. lia.
Qed.

Lemma Progress_before_test s :
  Progress s -> pc s = LoopTest ->
  Forall terminal (firstn (loop_i s) (tasks s)).
Proof.
  intros (Hnd & Hiss & sdone & todo & done & extra &
          Hlen & Hproc & Htodo & Hextra & Hflag & Hcur) Hpc.
  rewrite Hpc in Hcur. simpl in Hcur. destruct Hcur as (_ & HT).
  rewrite HT, <- Hlen, (Forall2_length Hproc).
  rewrite firstn_app, Nat.sub_diag, firstn_all. simpl. rewrite app_nil_r.
  apply Forall_forall. intros t Ht.
  destruct (Forall2_right _ _ _ _ Hproc Ht) as (t0 & _ & Hp). apply Hp.
Qed.

(** *** Steps and the direct style agree *)

Lemma step_remaining s e s1 :
  step s = Some (e, s1) ->
  fst (remaining s) = e :: fst (remaining s1) /\
  snd (remaining s) = snd (remaining s1).
Proof.
  unfold step, remaining. intros Hstep.
  destruct (pc s) as [| |task|task r|task b]; [discriminate| | | |].
  - destruct (nth_error (tasksToProcess s) (loop_i s)) as [task|] eqn:En.
    + rewrite (skipn_nth_error _ _ _ En). simpl. unfold iteration.
      destruct (TaskStatus_eqb (status task) COMPLETED);
        inversion Hstep; subst; clear Hstep; simpl.
      * destruct (loop _ _); auto.
      * unfold andThen. destruct (afterFetch task (world s)).
        destruct (loop _ _); auto.
    + rewrite (skipn_nth_error_None _ _ En).
      inversion Hstep; subst; simpl; auto.
  - unfold andThen, afterFetch.
    destruct (fetch (url task) (world s)) as [[r|msg] w].
    + destruct (ok r); simpl in *; inversion Hstep; subst; clear Hstep; simpl.
      * unfold andThen. destruct (afterBlob task r w).
        destruct (loop _ _); auto.
      * destruct (loop _ _); auto.
    + inversion Hstep; subst; clear Hstep; simpl.
      destruct (loop _ _); auto.
  - unfold andThen, afterBlob.
    destruct (blob r (world s)) as [[b|msg] w];
      inversion Hstep; subst; clear Hstep; simpl.
    + unfold andThen. destruct (afterPageCount task b w).
      destruct (loop _ _); auto.
    + destruct (loop _ _); auto.
  - unfold andThen, afterPageCount.
    destruct (getPageCount b (world s)) as [[n|msg] w];
      inversion Hstep; subst; clear Hstep; simpl;
      destruct (loop _ _); auto.
Qed.

Lemma processUrls_remaining urls s :
  remaining (processUrls urls s) = remaining s.
Proof.
  destruct (processUrls_frame urls s) as (_ & Ew & ES & Ei & Epc).
  unfold remaining. now rewrite Epc, Ew, ES, Ei.
Qed.

Lemma exec_remaining s tr s1 :
  exec s tr s1 ->
  fst (remaining s) = tr ++ fst (remaining s1) /\
  snd (remaining s) = snd (remaining s1).
Proof.
  induction 1 as [s|s e s1 tr s2 Hstep _ (IH1 & IH2)|s urls tr s2 _ IH].
  - auto.
  - destruct (step_remaining _ _ _ Hstep) as (E1 & E2).
    rewrite E1, E2, IH1. auto.
  - now rewrite processUrls_remaining in IH.
Qed.

Lemma exec_frozen s tr s1 :
  exec s tr s1 -> tasksToProcess s1 = tasksToProcess s.
Proof.
  induction 1 as [s|s e s1 tr s2 Hstep _ IH|s urls tr s2 _ IH].
  - reflexivity.
  - rewrite IH. unfold step, finishTask in Hstep.
    destruct (pc s) as [| |task|task r|task b]; [discriminate| | | |].
    + destruct (nth_error _ _);
        [destruct (TaskStatus_eqb _ _)|]; inversion Hstep; reflexivity.
    + destruct (fetch _ _) as [[r|msg] w];
        [destruct (ok r)|]; inversion Hstep; reflexivity.
    + destruct (blob _ _) as [[b|msg] w]; inversion Hstep; reflexivity.
    + destruct (getPageCount _ _) as [[n|msg] w]; inversion Hstep; reflexivity.
  - rewrite IH. apply processUrls_frame.
Qed.

Lemma exec_split s tr s1 :
  exec s tr s1 ->
  forall tr1 e tr2, tr = tr1 ++ e :: tr2 ->
  exists sa sb, exec s tr1 sa /\ step sa = Some (e, sb) /\ exec sb tr2 s1.
Proof.
  induction 1 as [s|s e0 s1 tr s2 Hstep Hexec IH|s urls tr s2 _ IH];
    intros tr1 e tr2 E.
  - destruct tr1; discriminate.
  - destruct tr1 as [|e1 tr1]; simpl in E; inversion E; subst.
    + exists s, s1. split; [constructor | auto].
    + destruct (IH _ _ _ eq_refl) as (sa & sb & H1 & H2 & H3).
      exists sa, sb. split; [econstructor; eauto | auto].
  - destruct (IH _ _ _ E) as (sa & sb & H1 & H2 & H3).
    exists sa, sb. split; [eapply exec_add; eauto | auto].
Qed.

Lemma exec_app s tr1 s1 tr2 s2 :
  exec s tr1 s1 -> exec s1 tr2 s2 -> exec s (tr1 ++ tr2) s2.
Proof.
  induction 1 as [s|s e s1 tr s3 Hstep _ IH|s urls tr s3 _ IH]; intros H2.
  - exact H2.
  - simpl. econstructor; eauto.
  - eapply exec_add; eauto.
Qed.

(** *** The events of the loop *)

Lemma iteration_events task w :
  started (fst (iteration task w))
  = (if notCompleted task then [id task] else []) /\
  finished (fst (iteration task w))
  = (if notCompleted task then [id task] else []) /\
  Forall (fun e => about e = Some (id task)) (fst (iteration task w)) /\
  (notCompleted task = true ->
   exists evs, fst (iteration task w) = Update (id task) ToDownloading :: evs) /\
  (forall k p, In (Update k p) (fst (iteration task w)) ->
               notCompleted task = true) /\
  (List.length (fst (iteration task w)) <= 4)%nat.
Proof.
  unfold iteration, notCompleted, afterFetch, afterBlob, afterPageCount.
  destruct (TaskStatus_eqb (status task) COMPLETED); simpl.
  - repeat split; auto; try lia; try discriminate.
    intros k p [H|[]]; discriminate.
  - destruct (fetch (url task) w) as [[r|msg] w1]; simpl;
      [destruct (ok r); simpl;
       [destruct (blob r w1) as [[b|msg] w2]; simpl;
        [destruct (getPageCount b w2) as [[n|msg] w3]; simpl|]|]|];
      repeat split; auto; try lia; eauto.
Qed.

Lemma loop_cons task rest w :
  fst (loop (task :: rest) w)
  = fst (iteration task w) ++ fst (loop rest (snd (iteration task w))).
Proof.
  simpl. destruct (iteration task w) as [evs w1]. simpl.
  destruct (loop rest w1). reflexivity.
Qed.

Lemma loop_started todo w :
  started (fst (loop todo w)) = map id (filter notCompleted todo) /\
  finished (fst (loop todo w)) = map id (filter notCompleted todo).
Proof.
  revert w. induction todo as [|task rest IH]; intros w.
  - split; reflexivity.
  - rewrite loop_cons. unfold started, finished in *. rewrite !choose_app.
    destruct (IH (snd (iteration task w))) as (IH1 & IH2).
    destruct (iteration_events task w) as (E1 & E2 & _).
    unfold started, finished in *. rewrite IH1, IH2, E1, E2. simpl.
    destruct (notCompleted task); split; reflexivity.
Qed.

Lemma loop_about todo w e :
  In e (fst (loop todo w)) ->
  e = Return \/
  exists t, In t todo /\ about e = Some (id t) /\
            (forall k p, e = Update k p -> notCompleted t = true).
Proof.
  revert w. induction todo as [|task rest IH]; intros w.
  - simpl. intros [<-|[]]. now left.
  - rewrite loop_cons. intros H. apply in_app_or in H as [H|H].
    + right. exists task.
      destruct (iteration_events task w) as (_ & _ & Ha & _ & Hu & _).
      rewrite Forall_forall in Ha.
      split; [now left|]. split; [now apply Ha|].
      intros k p ->. exact (Hu _ _ H).
    + destruct (IH _ H) as [->|(t & Ht & Hab)]; [now left|].
      right. exists t. split; [now right | exact Hab].
Qed.

Lemma loop_first todo w t :
  NoDup (map id todo) -> In t todo -> notCompleted t = true ->
  exists tr1 tr2,
    fst (loop todo w) = tr1 ++ Update (id t) ToDownloading :: tr2 /\
    forall e, In e tr1 -> about e <> Some (id t).
Proof.
  revert w. induction todo as [|task rest IH]; intros w Hnd Hin Hnc.
  - destruct Hin.
  - rewrite loop_cons. simpl in Hnd. inversion Hnd as [|? ? Hn Hnd']; subst.
    destruct (iteration_events task w) as (_ & _ & Ha & Hd & _).
    destruct Hin as [->|Hin].
    + destruct (Hd Hnc) as (evs & ->).
      exists [], (evs ++ fst (loop rest (snd (iteration t w)))).
      split; [reflexivity | intros e []].
    + destruct (IH (snd (iteration task w)) Hnd' Hin Hnc)
        as (tr1 & tr2 & E & Hfirst).
      exists (fst (iteration task w) ++ tr1), tr2.
      rewrite E, <- app_assoc. split; [reflexivity|].
      intros e He. apply in_app_or in He as [He|He]; [|now apply Hfirst].
      rewrite Forall_forall in Ha. rewrite (Ha _ He).
      intros Heq. inversion Heq as [Hid].
      apply Hn. rewrite Hid. now apply in_map.
Qed.

Lemma loop_length todo w :
  (List.length (fst (loop todo w)) <= 4 * List.length todo + 1)%nat.
Proof.
  revert w. induction todo as [|task rest IH]; intros w; [simpl; lia|].
  rewrite loop_cons, length_app.
  destruct (iteration_events task w) as (_ & _ & _ & _ & _ & Hlen).
  specialize (IH (snd (iteration task w))). simpl List.length. lia.
Qed.

(** *** What the run no longer touches *)

Lemma step_stable s e s1 :
  step s = Some (e, s1) ->
  incl (pending s1) (pending s) /\
  forall x, In x (tasks s) -> ~ In (id x) (pending s) -> In x (tasks s1).
Proof.
  unfold step, pending, finishTask. intros Hstep.
  destruct (pc s) as [| |task|task r|task b]; [discriminate| | | |].
  - destruct (nth_error (tasksToProcess s) (loop_i s)) as [task|] eqn:En.
    + rewrite (skipn_nth_error _ _ _ En).
      destruct (TaskStatus_eqb (status task) COMPLETED);
        inversion Hstep; subst; clear Hstep; simpl.
      * split; [apply incl_tl, incl_refl | auto].
      * split; [apply incl_refl|].
        intros x Hx Hn. apply updateTask_keeps; [exact Hx|]. intros E; apply Hn; left; congruence.
    + inversion Hstep; subst; simpl. split; [intros k [] | auto].
  - destruct (fetch (url task) (world s)) as [[r|msg] w];
      [destruct (ok r)|]; simpl in *; inversion Hstep; subst; clear Hstep;
      simpl; (split; [try apply incl_refl; try (apply incl_tl, incl_refl)|]);
      auto; intros x Hx Hn; (apply updateTask_keeps; [exact Hx|]; intros E; apply Hn; left; congruence).
  - destruct (blob r (world s)) as [[b|msg] w];
      inversion Hstep; subst; clear Hstep;
      simpl; (split; [try apply incl_refl; try (apply incl_tl, incl_refl)|]);
      intros x Hx Hn; (apply updateTask_keeps; [exact Hx|]; intros E; apply Hn; left; congruence).
  - destruct (getPageCount b (world s)) as [[n|msg] w];
      inversion Hstep; subst; clear Hstep;
      simpl; (split; [apply incl_tl, incl_refl|]);
      intros x Hx Hn; (apply updateTask_keeps; [exact Hx|]; intros E; apply Hn; left; congruence).
Qed.

Lemma exec_stable s tr s1 :
  exec s tr s1 ->
  forall x, In x (tasks s) -> ~ In (id x) (pending s) -> In x (tasks s1).
Proof.
  induction 1 as [s|s e s1 tr s2 Hstep _ IH|s urls tr s2 _ IH];
    intros x Hx Hn.
  - exact Hx.
  - destruct (step_stable _ _ _ Hstep) as (Hincl & Hkeep).
    apply IH; [now apply Hkeep | intros H; apply Hn, Hincl, H].
  - apply IH.
    + rewrite processUrls_tasks. apply in_or_app. now left.
    + destruct (processUrls_frame urls s) as (_ & _ & ES & Ei & Epc).
      unfold pending in *. now rewrite Epc, ES, Ei.
Qed.

(** *** The run returns *)

Lemma step_total s : pc s <> NotRunning -> exists e s1, step s = Some (e, s1).
Proof.
  unfold step, finishTask. intros H.
  destruct (pc s) as [| |task|task r|task b]; [congruence| | | |].
  - destruct (nth_error _ _); [destruct (TaskStatus_eqb _ _)|]; eauto.
  - destruct (fetch _ _) as [[r|msg] w]; [destruct (negb (ok r))|]; eauto.
  - destruct (blob _ _) as [[b|msg] w]; eauto.
  - destruct (getPageCount _ _) as [[n|msg] w]; eauto.
Qed.

Lemma remaining_nil s : fst (remaining s) = [] -> pc s = NotRunning.
Proof.
  intros H. destruct (pc s) eqn:Epc; [reflexivity| | | |];
    (destruct (step_total s) as (e & s1 & Hstep); [congruence|];
     destruct (step_remaining _ _ _ Hstep) as (E & _);
     rewrite H in E; discriminate).
Qed.

Lemma steps_complete n :
  forall s, (List.length (fst (remaining s)) <= n)%nat ->
  exists s1, steps n s = (fst (remaining s), s1) /\ pc s1 = NotRunning.
Proof.
  induction n as [|n IH]; intros s Hlen.
  - assert (E : fst (remaining s) = [])
      by (destruct (fst (remaining s)); [reflexivity | simpl in Hlen; lia]).
    exists s. rewrite E. split; [reflexivity | now apply remaining_nil].
  - simpl. destruct (step s) as [[e s1]|] eqn:Hstep.
    + destruct (step_remaining _ _ _ Hstep) as (E & _).
      rewrite E in Hlen |- *. simpl in Hlen.
      destruct (IH s1) as (s2 & Hs & Hpc); [lia|].
      exists s2. rewrite Hs. auto.
    + assert (Hpc : pc s = NotRunning).
      { destruct (pc s) eqn:Epc; [reflexivity| | | |];
          (destruct (step_total s) as (e & s1 & H); congruence). }
      exists s. unfold remaining. rewrite Hpc. auto.
Qed.

Lemma steps_exec n : forall s tr s1, steps n s = (tr, s1) -> exec s tr s1.
Proof.
  induction n as [|n IH]; intros s tr s1 H; simpl in H.
  - inversion H. constructor.
  - destruct (step s) as [[e s2]|] eqn:Hstep.
    + destruct (steps n s2) as [tr2 s3] eqn:E. inversion H; subst.
      econstructor; eauto.
    + inversion H. constructor.
Qed.

End RunFacts.

Lemma Sample_laws : PlatformLaws Sample.platform.
Proof.
  split.
  - simpl. intros j. induction j as [|j IH]; intros [|k] E; simpl in E;
      try discriminate; auto.
    inversion E. f_equal. now apply IH.
  - intros d. apply N2Z.is_nonneg.
Qed.

Section RunShape.
Context {P : Platform} {L : PlatformLaws P}.

Lemma step_downloading s k s1 :
  step s = Some (Update k ToDownloading, s1) ->
  pc s = LoopTest /\
  exists task,
    nth_error (tasksToProcess s) (loop_i s) = Some task /\
    id task = k /\ status task <> COMPLETED /\
    pc s1 = AwaitFetch task /\
    tasks s1 = updateTask k ToDownloading (tasks s).
Proof.
  unfold step, finishTask. intros Hstep.
  destruct (pc s) as [| |task|task r|task b]; [discriminate| | | |].
  - split; [reflexivity|].
    destruct (nth_error _ _) as [task|]; [|discriminate].
    destruct (TaskStatus_eqb_spec (status task) COMPLETED);
      inversion Hstep; subst.
    exists task. auto 10.
  - destruct (fetch _ _) as [[r|msg] w]; [destruct (negb (ok r))|];
      discriminate.
  - destruct (blob _ _) as [[b|msg] w]; discriminate.
  - destruct (getPageCount _ _) as [[n|msg] w]; discriminate.
Qed.

Lemma steps_reachable n : forall s, reachable s -> reachable (snd (steps n s)).
Proof.
  induction n as [|n IH]; intros s H; simpl; [exact H|].
  destruct (step s) as [[e s1]|] eqn:Hstep; [|exact H].
  specialize (IH s1 (reach_step _ _ _ H Hstep)).
  destruct (steps n s1). exact IH.
Qed.

Lemma reachable_Quiescent s :
  reachable s -> isProcessing s = false -> Quiescent s.
Proof. intros H. apply Inv_Quiescent. now apply reachable_Inv. Qed.

Lemma Progress_snapshot_ids s :
  Progress s ->
  exists current added,
    tasks s = current ++ added /\
    map id current = map id (tasksToProcess s) /\
    Forall fresh_task added.
Proof.
  intros (Hnd & Hiss & sdone & todo & done & extra &
          Hlen & Hproc & Htodo & Hextra & Hflag & Hcur).
  pose proof (processed_ids _ _ Hproc) as Hids.
  destruct (cursor (pc s)) as [[t cur]|] eqn:Ec.
  - destruct Hcur as (HS & HT & _).
    destruct (cursor_same _ _ _ Ec) as (Eid & _).
    exists (done ++ cur :: todo), extra.
    rewrite HS, HT, <- app_assoc, !map_app. simpl. rewrite Hids, Eid. auto.
  - destruct Hcur as (HS & HT).
    exists (done ++ todo), extra.
    rewrite HS, HT, <- app_assoc, !map_app, Hids. auto.
Qed.

End RunShape.

(** ** The claims about a run *)

(** C2.  In every state the queue can reach, by adding links, removing
    tasks, clearing, starting a run or any step of a run, each task has
    its [pageCount] set exactly when its status is COMPLETED and its
    [error] set exactly when its status is FAILED. *)
Theorem payload_matches_status (P : Platform) (L : PlatformLaws P) (s : State) :
  reachable s ->
  Forall (fun t => (isSet (pageCount t) <-> status t = COMPLETED) /\
                   (isSet (error t) <-> status t = FAILED)) (tasks s).
Proof.
  intros H. eapply Forall_impl; [|apply Inv_tasks_ok, reachable_Inv, H].
  intros t (H1 & H2 & _). auto.
Qed.

Lemma payload_matches_status_witness :
  let s := snd (steps 6 (runTasks Sample.queue3)) in
  reachable s /\
  Forall (fun t => (isSet (pageCount t) <-> status t = COMPLETED) /\
                   (isSet (error t) <-> status t = FAILED)) (tasks s).
Proof.
  intros s.
  assert (H : reachable s).
  { apply steps_reachable, reach_runTasks; [|reflexivity].
    apply reach_processUrls, reach_initial. }
  split; [exact H|].
  exact (payload_matches_status Sample.platform Sample_laws s H).
Defined.

(** C5.  In every reachable state at most one task is DOWNLOADING or
    ANALYZING.  None is while no run is in progress or the run is at the
    test of its loop, where every task of the copy before the loop index is
    COMPLETED or FAILED; so a task is set to DOWNLOADING only when none is
    in flight, and is then the only one. *)
Theorem one_task_in_flight (P : Platform) (L : PlatformLaws P) (s : State) :
  reachable s ->
  (countInFlight (tasks s) <= 1)%nat /\
  (pc s = NotRunning \/ pc s = LoopTest -> countInFlight (tasks s) = 0%nat) /\
  (pc s = LoopTest -> Forall terminal (firstn (loop_i s) (tasks s))) /\
  (forall k s1, step s = Some (Update k ToDownloading, s1) ->
     countInFlight (tasks s) = 0%nat /\ countInFlight (tasks s1) = 1%nat).
Proof.
  intros Hr. pose proof (reachable_Inv s Hr) as HI.
  assert (Hidle : pc s = NotRunning \/ pc s = LoopTest ->
                  countInFlight (tasks s) = 0%nat).
  { unfold Inv in HI. intros [E|E]; rewrite E in HI.
    - apply countInFlight_settled, HI.
    - rewrite (Progress_inFlight s HI), E. reflexivity. }
  split; [|split; [exact Hidle|split]].
  - unfold Inv in HI. destruct (pc s) eqn:E;
      try (rewrite Hidle by auto; lia);
      rewrite (Progress_inFlight s HI), E; simpl; lia.
  - intros E. unfold Inv in HI. rewrite E in HI.
    now apply Progress_before_test.
  - intros k s1 Hstep.
    destruct (step_downloading _ _ _ Hstep) as (E & task & _ & _ & _ & E1 & _).
    split; [auto|].
    pose proof (reachable_Inv s1 (reach_step _ _ _ Hr Hstep)) as HI1.
    unfold Inv in HI1. rewrite E1 in HI1.
    rewrite (Progress_inFlight s1 HI1), E1. reflexivity.
Qed.

Lemma one_task_in_flight_witness :
  let s := snd (steps 5 (runTasks Sample.queue3)) in
  reachable s /\ countInFlight (tasks s) = 1%nat /\
  (countInFlight (tasks s) <= 1)%nat.
Proof.
  intros s.
  assert (H : reachable s).
  { apply steps_reachable, reach_runTasks; [|reflexivity].
    apply reach_processUrls, reach_initial. }
  split; [exact H|]. split; [reflexivity|].
  exact (proj1 (one_task_in_flight Sample.platform Sample_laws s H)).
Defined.

Section RunClaims.
Context {P : Platform} {L : PlatformLaws P}.

Lemma remaining_runTasks s0 :
  remaining (runTasks s0) = loop (tasks s0) (world s0).
Proof. reflexivity. Qed.

Lemma remaining_returned s : pc s = NotRunning -> fst (remaining s) = [].
Proof. unfold remaining. now intros ->. Qed.

Lemma run_Progress s0 tr s1 :
  Quiescent s0 -> exec (runTasks s0) tr s1 ->
  Progress s1 /\ tasksToProcess s1 = tasks s0 /\
  fst (loop (tasks s0) (world s0)) = tr ++ fst (remaining s1).
Proof.
  intros HQ Hexec. split; [|split].
  - exact (exec_Progress _ _ _ Hexec (Quiescent_runTasks _ HQ)).
  - exact (exec_frozen _ _ _ Hexec).
  - rewrite <- remaining_runTasks. apply (exec_remaining _ _ _ Hexec).
Qed.

Lemma Progress_keeps_completed s t :
  Progress s -> In t (tasksToProcess s) -> status t = COMPLETED ->
  In t (tasks s).
Proof.
  intros (Hnd & Hiss & sdone & todo & done & extra &
          Hlen & Hproc & Htodo & Hextra & Hflag & Hcur) Hin Hst.
  assert (Hdone : In t sdone -> In t done).
  { intros H. destruct (Forall2_left _ _ _ _ Hproc H) as (d & Hd & Hp).
    destruct Hp as (_ & _ & _ & _ & Hsame). now rewrite <- (Hsame Hst). }
  destruct (cursor (pc s)) as [[t0 cur]|].
  - destruct Hcur as (HS & HT & _ & Hnc). rewrite HS in Hin. rewrite HT.
    apply in_app_or in Hin as [Hin|[->|Hin]]; [| contradiction |].
    + apply in_or_app. left. auto.
    + apply in_or_app. right. right. apply in_or_app. now left.
  - destruct Hcur as (HS & HT). rewrite HS in Hin. rewrite HT.
    apply in_app_or in Hin as [Hin|Hin]; apply in_or_app; [left; auto|].
    right. apply in_or_app. now left.
Qed.

Lemma Progress_at_test s t :
  Progress s -> pc s = LoopTest ->
  nth_error (tasksToProcess s) (loop_i s) = Some t -> In t (tasks s).
Proof.
  intros (Hnd & Hiss & sdone & todo & done & extra &
          Hlen & Hproc & Htodo & Hextra & Hflag & Hcur) Hpc Hn.
  rewrite Hpc in Hcur. simpl in Hcur. destruct Hcur as (HS & HT).
  rewrite HS, <- Hlen, nth_error_at_length in Hn.
  destruct todo as [|t' todo]; inversion Hn; subst.
  rewrite HT. apply in_or_app. right. now left.
Qed.

Lemma Progress_cursor_in s t cur :
  Progress s -> cursor (pc s) = Some (t, cur) ->
  In cur (tasks s) /\ pageCount t = None /\
  ~ In (id t) (map id (skipn (S (loop_i s)) (tasksToProcess s))).
Proof.
  intros (Hnd & Hiss & sdone & todo & done & extra &
          Hlen & Hproc & Htodo & Hextra & Hflag & Hcur) Hc.
  rewrite Hc in Hcur. destruct Hcur as (HS & HT & Hset & Hnc).
  destruct (cursor_same _ _ _ Hc) as (Eid & _).
  split; [rewrite HT; apply in_or_app; right; now left|].
  split; [now apply settled_untouched|].
  rewrite HS, <- Hlen.
  replace (sdone ++ t :: todo) with ((sdone ++ [t]) ++ todo)
    by now rewrite <- app_assoc.
  replace (S (List.length sdone)) with (List.length (sdone ++ [t]))
    by (rewrite length_app; simpl; lia).
  rewrite skipn_at_length.
  rewrite HT, map_app in Hnd. simpl in Hnd.
  apply NoDup_remove_2 in Hnd. rewrite Eid in Hnd.
  intros Hin. apply Hnd. apply in_or_app. right.
  rewrite map_app. apply in_or_app. now left.
Qed.

Lemma fails_step s task msg :
  fails s task msg ->
  exists cur w,
    cursor (pc s) = Some (task, cur) /\
    step s = Some (finishTask task (ToFailed msg) w s) /\
    patch (ToFailed msg) cur
    = mkTask (id task) (url task) (fileName task) (pageCount task)
        FAILED (Some msg).
Proof.
  unfold fails, step.
  intros [(Hpc & w & E)|[(Hpc & r & w & E & Hok & ->)
                        |[(r & Hpc & w & E)|(b & Hpc & w & E)]]];
    rewrite Hpc, E; try rewrite Hok; simpl; eauto.
Qed.

End RunClaims.

(** C1.  From any queue with no run in progress, [runTasks] returns (with
    collaborators that always settle, at most four steps per task and one
    more); however links are added meanwhile, [isProcessing] is set as long
    as the run has not returned, and when it has returned [isProcessing] is
    cleared and each task of the copy made at the start, in order, is in
    the queue with status COMPLETED or FAILED. *)
Theorem runTasks_settles_every_task (P : Platform) (L : PlatformLaws P)
    (s0 : State) :
  Quiescent s0 ->
  (exists tr s1,
     steps (4 * List.length (tasks s0) + 1) (runTasks s0) = (tr, s1) /\
     pc s1 = NotRunning) /\
  (forall tr s1, exec (runTasks s0) tr s1 ->
     (pc s1 <> NotRunning -> isProcessing s1 = true) /\
     (pc s1 = NotRunning ->
      isProcessing s1 = false /\
      exists done added,
        tasks s1 = done ++ added /\
        Forall2 processed (tasks s0) done /\
        Forall2 (fun t0 t => id t = id t0 /\
                             (status t = COMPLETED \/ status t = FAILED))
          (tasks s0) done)).
Proof.
  intros HQ. split.
  - destruct (steps_complete (4 * List.length (tasks s0) + 1) (runTasks s0))
      as (s1 & Hs & Hpc); [rewrite remaining_runTasks; apply loop_length|].
    eauto.
  - intros tr s1 Hexec.
    destruct (run_Progress _ _ _ HQ Hexec) as (HP & HS & _).
    destruct HP as (Hnd & Hiss & sdone & todo & done & extra &
                    Hlen & Hproc & Htodo & Hextra & Hflag & Hcur).
    split.
    + intros Hpc. destruct (pc s1); tauto.
    + intros Hpc. rewrite Hpc in Hflag, Hcur. simpl in Hcur.
      destruct Hflag as (Hip & ->). destruct Hcur as (HS' & HT).
      rewrite HS, app_nil_r in HS'. subst sdone.
      split; [exact Hip|]. exists done, extra.
      split; [exact HT|]. split; [exact Hproc|].
      eapply Forall2_impl; [|exact Hproc].
      intros t0 t (Eid & _ & _ & (_ & Hst) & _). auto.
Qed.

Lemma runTasks_settles_every_task_witness :
  Quiescent Sample.queue3 /\
  exists tr s1,
    steps (4 * List.length (tasks Sample.queue3) + 1) (runTasks Sample.queue3)
    = (tr, s1) /\ pc s1 = NotRunning.
Proof.
  assert (H : Quiescent Sample.queue3).
  { apply (@reachable_Quiescent Sample.platform Sample_laws); [|reflexivity].
    apply reach_processUrls, reach_initial. }
  split; [exact H|].
  exact (proj1 (runTasks_settles_every_task Sample.platform Sample_laws
                  Sample.queue3 H)).
Defined.

(** C6.  A run works on the copy of the queue made when it starts.  In
    every execution, with links added at any point, the copy stays what it
    was, the events so far are an initial part of the events of the loop
    over the copy in its order, and so are the tasks started and the tasks
    finished so far of the tasks of the copy that were not COMPLETED; when
    the run has returned they are all of them.  The queue is then the tasks
    of the copy, by identifier and in order, followed by the tasks added
    since, which are as [processUrls] made them and about which the run
    has no event. *)
Theorem run_follows_snapshot (P : Platform) (L : PlatformLaws P)
    (s0 : State) :
  Quiescent s0 ->
  forall tr s1, exec (runTasks s0) tr s1 ->
    let order := map id (filter notCompleted (tasks s0)) in
    tasksToProcess s1 = tasks s0 /\
    (exists rest, fst (loop (tasks s0) (world s0)) = tr ++ rest) /\
    (exists later, order = started tr ++ later) /\
    (exists later, order = finished tr ++ later) /\
    (pc s1 = NotRunning ->
     tr = fst (loop (tasks s0) (world s0)) /\
     started tr = order /\ finished tr = order) /\
    (exists current added,
       tasks s1 = current ++ added /\
       map id current = map id (tasks s0) /\
       Forall fresh_task added /\
       forall t, In t added -> forall e, In e tr -> about e <> Some (id t)).
Proof.
  intros HQ tr s1 Hexec order.
  destruct (run_Progress _ _ _ HQ Hexec) as (HP & HS & Htr).
  destruct (loop_started (tasks s0) (world s0)) as (Hst & Hfin).
  fold order in Hst, Hfin.
  split; [exact HS|]. split; [eauto|].
  split; [|split; [|split]].
  - exists (started (fst (remaining s1))).
    rewrite <- Hst, Htr. apply choose_app.
  - exists (finished (fst (remaining s1))).
    rewrite <- Hfin, Htr. apply choose_app.
  - intros Hpc. rewrite (remaining_returned _ Hpc), app_nil_r in Htr.
    now rewrite <- Htr in *.
  - destruct (Progress_snapshot_ids _ HP) as (current & added & HT & Hids & Hfr).
    exists current, added. rewrite HS in Hids.
    split; [exact HT|]. split; [exact Hids|]. split; [exact Hfr|].
    intros t Ht e He Habout.
    assert (Hin : In e (fst (loop (tasks s0) (world s0))))
      by (rewrite Htr; apply in_or_app; now left).
    destruct (loop_about _ _ _ Hin) as [->|(t' & Ht' & Hab & _)];
      [discriminate|].
    destruct HP as (Hnd & _). rewrite HT, map_app in Hnd.
    apply (in_map id) in Ht'. rewrite <- Hids in Ht'.
    apply in_split in Ht as (a1 & a2 & ->).
    rewrite map_app in Hnd. simpl in Hnd.
    rewrite app_assoc in Hnd. apply NoDup_remove_2 in Hnd.
    apply Hnd. apply in_or_app. left. apply in_or_app. left.
    congruence.
Qed.

Lemma run_follows_snapshot_witness :
  let s1 := processUrls ["https://c/z.pdf"]
              (snd (steps 2 (runTasks Sample.queue3))) in
  let s2 := snd (steps 20 s1) in
  Quiescent Sample.queue3 /\
  exec (runTasks Sample.queue3) (fst (steps 22 (runTasks Sample.queue3))) s2 /\
  pc s2 = NotRunning /\
  started (fst (steps 22 (runTasks Sample.queue3)))
  = map id (tasks Sample.queue3) /\
  map status (tasks s2) = [COMPLETED; FAILED; COMPLETED; IDLE].
Proof.
  intros s1 s2.
  assert (H : Quiescent Sample.queue3).
  { apply (@reachable_Quiescent Sample.platform Sample_laws); [|reflexivity].
    apply reach_processUrls, reach_initial. }
  assert (Hexec : exec (runTasks Sample.queue3)
                    (fst (steps 22 (runTasks Sample.queue3))) s2).
  { change (fst (steps 22 (runTasks Sample.queue3)))
      with (fst (steps 2 (runTasks Sample.queue3)) ++ fst (steps 20 s1)).
    eapply exec_app.
    - apply (steps_exec 2). apply surjective_pairing.
    - apply exec_add with (urls := ["https://c/z.pdf"]).
      apply (steps_exec 20). apply surjective_pairing. }
  split; [exact H|]. split; [exact Hexec|]. split; [reflexivity|].
  split; [|reflexivity].
  destruct (run_follows_snapshot Sample.platform Sample_laws Sample.queue3 H
              _ _ Hexec) as (_ & _ & _ & _ & Hend & _).
  exact (proj1 (proj2 (Hend eq_refl))).
Defined.

(** C3.  Let a run start on a queue with no run in progress, and [t] be a
    task of that queue.  If [t] is COMPLETED, then at every point of the
    run, with links added at any point, [t] is in the queue as it was, and
    no [setTasks] call of the run is for it.  If [t] is FAILED, then in
    every execution up to the return of the run, the first event about [t]
    is the call that sets it to DOWNLOADING: before it [t] is in the queue
    as it was, after it the queue holds [t] with status DOWNLOADING and no
    [error], and the run awaits the fetch of its link. *)
Theorem rerun_skips_completed_retries_failed (P : Platform)
    (L : PlatformLaws P) (s0 : State) :
  Quiescent s0 ->
  forall t, In t (tasks s0) ->
    (status t = COMPLETED ->
     forall tr s1, exec (runTasks s0) tr s1 ->
       In t (tasks s1) /\ forall p, ~ In (Update (id t) p) tr) /\
    (status t = FAILED ->
     forall tr s1, exec (runTasks s0) tr s1 -> pc s1 = NotRunning ->
       exists tr1 sa sb tr2,
         tr = tr1 ++ Update (id t) ToDownloading :: tr2 /\
         exec (runTasks s0) tr1 sa /\
         step sa = Some (Update (id t) ToDownloading, sb) /\
         exec sb tr2 s1 /\
         (forall e, In e tr1 -> about e <> Some (id t)) /\
         In t (tasks sa) /\
         In (patch ToDownloading t) (tasks sb) /\
         pc sb = AwaitFetch t /\
         status (patch ToDownloading t) = DOWNLOADING /\
         error (patch ToDownloading t) = None).
Proof.
  intros HQ t Ht.
  pose proof HQ as (_ & _ & Hnd0 & _ & _).
  split.
  - intros Hst tr s1 Hexec.
    destruct (run_Progress _ _ _ HQ Hexec) as (HP & HS & Htr).
    split.
    + apply Progress_keeps_completed; [exact HP | now rewrite HS | exact Hst].
    + intros p Hin.
      assert (Hin' : In (Update (id t) p) (fst (loop (tasks s0) (world s0))))
        by (rewrite Htr; apply in_or_app; now left).
      destruct (loop_about _ _ _ Hin') as [E|(t' & Ht' & Hab & Hup)];
        [discriminate|].
      simpl in Hab. inversion Hab as [Hid].
      assert (t = t') by (apply (same_id_same_task (tasks s0)); auto).
      subst t'. specialize (Hup _ _ eq_refl).
      unfold notCompleted in Hup. rewrite Hst in Hup. discriminate.
  - intros Hst tr s1 Hexec Hpc.
    destruct (run_Progress _ _ _ HQ Hexec) as (_ & _ & Htr).
    rewrite (remaining_returned _ Hpc), app_nil_r in Htr.
    assert (Hnc : notCompleted t = true)
      by (unfold notCompleted; now rewrite Hst).
    destruct (loop_first (tasks s0) (world s0) t Hnd0 Ht Hnc)
      as (tr1 & tr2 & E & Hfirst).
    rewrite Htr in E.
    destruct (exec_split _ _ _ Hexec _ _ _ E) as (sa & sb & H1 & H2 & H3).
    destruct (step_downloading _ _ _ H2)
      as (Hpca & task & Hnth & Hid & _ & Hpcb & _).
    destruct (run_Progress _ _ _ HQ H1) as (HPa & HSa & _).
    assert (task = t).
    { apply (same_id_same_task (tasks s0)); auto.
      rewrite <- HSa. exact (nth_error_In _ _ Hnth). }
    subst task.
    assert (HPb : Progress sb) by exact (Progress_step _ _ _ HPa H2).
    exists tr1, sa, sb, tr2.
    repeat split; auto.
    + now apply Progress_at_test.
    + apply (Progress_cursor_in sb t). exact HPb. now rewrite Hpcb.
Qed.

Lemma rerun_skips_completed_retries_failed_witness :
  let tr := fst (steps 9 (runTasks Sample.retry1)) in
  let s1 := snd (steps 9 (runTasks Sample.retry1)) in
  Quiescent Sample.retry1 /\
  tasks Sample.retry1 = [Sample.task_a; Sample.task_d] /\
  exec (runTasks Sample.retry1) tr s1 /\
  (In Sample.task_a (tasks s1) /\
   forall p, ~ In (Update (id Sample.task_a) p) tr) /\
  exists tr1 sa sb tr2,
    tr = tr1 ++ Update (id Sample.task_d) ToDownloading :: tr2 /\
    exec (runTasks Sample.retry1) tr1 sa /\
    step sa = Some (Update (id Sample.task_d) ToDownloading, sb) /\
    exec sb tr2 s1 /\
    (forall e, In e tr1 -> about e <> Some (id Sample.task_d)) /\
    In Sample.task_d (tasks sa) /\
    In (patch ToDownloading Sample.task_d) (tasks sb) /\
    pc sb = AwaitFetch Sample.task_d /\
    status (patch ToDownloading Sample.task_d) = DOWNLOADING /\
    error (patch ToDownloading Sample.task_d) = None.
Proof.
  intros tr s1.
  assert (H : Quiescent Sample.retry1).
  { apply (@reachable_Quiescent Sample.platform Sample_laws); [|reflexivity].
    apply (@steps_reachable Sample.platform 9), reach_runTasks; [|reflexivity].
    apply reach_processUrls, reach_initial. }
  assert (Hexec : exec (runTasks Sample.retry1) tr s1)
    by (apply (steps_exec 9); apply surjective_pairing).
  split; [exact H|]. split; [reflexivity|]. split; [exact Hexec|].
  split.
  - apply (rerun_skips_completed_retries_failed Sample.platform Sample_laws
             Sample.retry1 H Sample.task_a);
      [left; reflexivity | reflexivity | exact Hexec].
  - apply (rerun_skips_completed_retries_failed Sample.platform Sample_laws
             Sample.retry1 H Sample.task_d);
      [right; left; reflexivity | reflexivity | exact Hexec | reflexivity].
Defined.

(** The decimal numeral [show] writes denotes the number shown. *)
Lemma show_reads_back (code : N) :
  option_map N.of_uint (NilZero.uint_of_string (show code)) = Some code.
Proof.
  unfold show. rewrite NilZero.usu.
  - simpl. now rewrite DecimalN.Unsigned.of_to.
  - intros H. pose proof (DecimalN.Unsigned.to_of (N.to_uint code)) as E.
    rewrite DecimalN.Unsigned.of_to in E. rewrite H in E at 2. simpl in E.
    rewrite H in E. discriminate.
Qed.

(** C4.  Let the [try] block of the iteration for [task] fail in a state of
    a run: the fetch rejects with a message, or resolves with a response
    that is not [ok], the message then being ["HTTP "], the status in
    decimal and [": Failed to download"], or the body cannot be read, or the
    page count cannot be obtained.  Then the next step sets the task to
    FAILED with that message as [error] and the run is at the test of its
    loop for the next index.  From there the run returns; the failed task
    stays as it is, and up to the return every remaining task of the copy
    that was not COMPLETED is started and finished, in order.  The status
    reads back from its numeral: 404 gives ["HTTP 404: Failed to
    download"], 500 gives ["HTTP 500: Failed to download"]. *)
Theorem failure_does_not_stop_the_run (P : Platform) (L : PlatformLaws P)
    (s0 : State) :
  (forall code,
     http_error code = ("HTTP " ++ show code ++ ": Failed to download")%string /\
     option_map N.of_uint (NilZero.uint_of_string (show code)) = Some code) /\
  http_error 404 = "HTTP 404: Failed to download" /\
  http_error 500 = "HTTP 500: Failed to download" /\
  (Quiescent s0 ->
   forall tr1 s1, exec (runTasks s0) tr1 s1 ->
   forall task msg,
     (pc s1 = AwaitFetch task /\
        exists w, fetch (url task) (world s1) = (Rejected msg, w)) \/
     (pc s1 = AwaitFetch task /\
        exists r w, fetch (url task) (world s1) = (Resolved r, w) /\
                    ok r = false /\
                    msg = ("HTTP " ++ show (http_status r)
                           ++ ": Failed to download")%string) \/
     (exists r, pc s1 = AwaitBlob task r /\
        exists w, blob r (world s1) = (Rejected msg, w)) \/
     (exists b, pc s1 = AwaitPageCount task b /\
        exists w, getPageCount b (world s1) = (Rejected msg, w)) ->
     let failed :=
       mkTask (id task) (url task) (fileName task) None FAILED (Some msg) in
     exists s2,
       step s1 = Some (Update (id task) (ToFailed msg), s2) /\
       pc s2 = LoopTest /\ loop_i s2 = S (loop_i s1) /\
       In failed (tasks s2) /\
       (exists tr2 s3,
          steps (4 * List.length (tasks s0) + 1) s2 = (tr2, s3) /\
          pc s3 = NotRunning) /\
       forall tr2 s3, exec s2 tr2 s3 ->
         In failed (tasks s3) /\
         (pc s3 = NotRunning ->
          let rest := skipn (loop_i s2) (tasks s0) in
          started tr2 = map id (filter notCompleted rest) /\
          finished tr2 = map id (filter notCompleted rest))).
Proof.
  split; [intros code; split; [reflexivity | apply show_reads_back]|].
  split; [reflexivity|]. split; [reflexivity|].
  intros HQ tr1 s1 Hexec task msg Hcase failed.
  assert (Hfail : fails s1 task msg).
  { unfold fails, http_error.
    destruct Hcase as [H|[H|[H|H]]]; [now left | right; now left
                                      | right; right; now left
                                      | right; right; now right]. }
  destruct (run_Progress _ _ _ HQ Hexec) as (HP & HS & _).
  destruct (fails_step _ _ _ Hfail) as (cur & w & Hc & Hstep & Hpatch).
  destruct (Progress_cursor_in _ _ _ HP Hc) as (Hcur & Hnone & Hfresh).
  destruct (cursor_same _ _ _ Hc) as (Eid & _).
  rewrite Hnone in Hpatch. fold failed in Hpatch.
  exists (snd (finishTask task (ToFailed msg) w s1)).
  assert (Hin : In failed
                  (tasks (snd (finishTask task (ToFailed msg) w s1)))).
  { simpl. rewrite <- Hpatch. unfold updateTask. apply in_map_iff.
    exists cur. rewrite Eid, String.eqb_refl. auto. }
  assert (Hrem : remaining (snd (finishTask task (ToFailed msg) w s1))
                 = loop (skipn (S (loop_i s1)) (tasks s0)) w).
  { unfold remaining. simpl. now rewrite HS. }
  split; [exact Hstep|]. split; [reflexivity|]. split; [reflexivity|].
  split; [exact Hin|]. split.
  - destruct (steps_complete (4 * List.length (tasks s0) + 1)
                (snd (finishTask task (ToFailed msg) w s1)))
      as (s3 & Hs & Hpc); [|eauto].
    rewrite Hrem.
    pose proof (loop_length (skipn (S (loop_i s1)) (tasks s0)) w) as Hlen.
    rewrite length_skipn in Hlen. lia.
  - intros tr2 s3 Hexec2. split.
    + apply (exec_stable _ _ _ Hexec2); [exact Hin|].
      unfold pending. simpl. exact Hfresh.
    + intros Hpc.
      destruct (exec_remaining _ _ _ Hexec2) as (Htr & _).
      rewrite (remaining_returned _ Hpc), app_nil_r, Hrem in Htr.
      rewrite <- Htr. simpl. apply loop_started.
Qed.

Lemma failure_does_not_stop_the_run_witness :
  let s0 := Sample.queue3 in
  let s1 := snd (steps 5 (runTasks s0)) in
  let task := mkTask "1u" "https://b/y.pdf" "y.pdf" None IDLE None in
  let msg := "HTTP 404: Failed to download" in
  let failed := mkTask "1u" "https://b/y.pdf" "y.pdf" None FAILED (Some msg) in
  Quiescent s0 /\
  exec (runTasks s0) (fst (steps 5 (runTasks s0))) s1 /\
  (pc s1 = AwaitFetch task /\
   exists r w, fetch (url task) (world s1) = (Resolved r, w) /\
               ok r = false /\
               msg = ("HTTP " ++ show (http_status r)
                      ++ ": Failed to download")%string) /\
  exists s2,
    step s1 = Some (Update "1u" (ToFailed msg), s2) /\
    pc s2 = LoopTest /\ loop_i s2 = 2%nat /\
    In failed (tasks s2) /\
    (exists tr2 s3, steps 13 s2 = (tr2, s3) /\ pc s3 = NotRunning) /\
    forall tr2 s3, exec s2 tr2 s3 ->
      In failed (tasks s3) /\
      (pc s3 = NotRunning ->
       let rest := skipn (loop_i s2) (tasks s0) in
       started tr2 = map id (filter notCompleted rest) /\
       finished tr2 = map id (filter notCompleted rest)).
Proof.
  intros s0 s1 task msg failed.
  assert (H : Quiescent s0).
  { apply (@reachable_Quiescent Sample.platform Sample_laws); [|reflexivity].
    apply reach_processUrls, reach_initial. }
  assert (Hexec : exec (runTasks s0) (fst (steps 5 (runTasks s0))) s1)
    by (apply (steps_exec 5); apply surjective_pairing).
  assert (Hcase : pc s1 = AwaitFetch task /\
            exists r w, fetch (url task) (world s1) = (Resolved r, w) /\
                        ok r = false /\
                        msg = ("HTTP " ++ show (http_status r)
                               ++ ": Failed to download")%string).
  { split; [reflexivity|].
    exists (404%N, Sample.Garbage), 2%nat. repeat split. }
  split; [exact H|]. split; [exact Hexec|]. split; [exact Hcase|].
  exact (proj2 (proj2 (proj2 (failure_does_not_stop_the_run
                                Sample.platform Sample_laws s0)))
           H _ _ Hexec task msg (or_intror (or_introl Hcase))).
Defined.

Lemma processUrls_appends_witness :
  issued Sample.queue3 /\
  (forall t,
     In t (newTasks (P := Sample.platform) (uuidCalls Sample.queue3)
             (filter Described.hasAllowedScheme
                (map JsString.trim Sample.three_links))) ->
     ~ In (id t) (map id (tasks Sample.queue3))) /\
  List.length (tasks (processUrls Sample.three_links Sample.queue3)) = 5%nat.
Proof.
  destruct (processUrls_appends Sample.platform Sample_laws
              Sample.three_links Sample.queue3)
    as (_ & _ & _ & _ & Hfresh & Hex).
  assert (Hi : issued Sample.queue3).
  { intros t [<-|[<-|[<-|[]]]];
      [exists 0%nat | exists 1%nat | exists 2%nat];
      (split; [simpl; lia | reflexivity]). }
  split; [exact Hi|]. split; [exact (Hfresh Hi)|].
  rewrite Hex. reflexivity.
Defined.

(** ** Export *)

(** C9.  For a queue whose tasks satisfy the data model, as every
    reachable queue does, [exportData] has one row per task, in the order of
    the queue, with the task's file name and link and, as page count, the
    count of a COMPLETED task (never negative), ["Error"] for a FAILED one
    and ["Pending"] for an IDLE, DOWNLOADING or ANALYZING one. *)
Theorem exportData_rows (P : Platform) (L : PlatformLaws P) :
  (forall ts, Forall task_ok ts ->
     List.length (exportData ts) = List.length ts /\
     Forall2 Described.rowMatches ts (exportData ts)) /\
  (forall s, reachable s ->
     List.length (exportData (tasks s)) = List.length (tasks s) /\
     Forall2 Described.rowMatches (tasks s) (exportData (tasks s))).
Proof.
  assert (H : forall ts, Forall task_ok ts ->
     List.length (exportData ts) = List.length ts /\
     Forall2 Described.rowMatches ts (exportData ts)).
  { intros ts H. split; [apply length_map|].
    unfold exportData.
    induction H as [|t ts Ht _ IH]; simpl; constructor; [|exact IH].
    unfold Described.rowMatches, exportRow; simpl.
    split; [reflexivity|]. split; [reflexivity|].
    destruct Ht as (Hp & _ & Hn). unfold Described.cellMatches, isSet in *.
    destruct (pageCount t) as [n|] eqn:Ep.
    - assert (Hs : status t = COMPLETED) by (apply Hp; discriminate).
      rewrite Hs. exists n. auto.
    - destruct (status t) eqn:Es; simpl; try reflexivity.
      exfalso. now apply Hp. }
  split; [exact H|].
  intros s Hr. apply H. apply Inv_tasks_ok. now apply reachable_Inv.
Qed.

Lemma exportData_rows_witness :
  let s := snd (steps 7 (runTasks Sample.queue3)) in
  reachable s /\
  map Page_Count (exportData (tasks s))
  = [CellNumber 3; CellString "Error"; CellString "Pending"] /\
  Forall2 Described.rowMatches (tasks s) (exportData (tasks s)).
Proof.
  intros s.
  assert (H : reachable s).
  { apply (@steps_reachable Sample.platform 7), reach_runTasks; [|reflexivity].
    apply reach_processUrls, reach_initial. }
  split; [exact H|]. split; [reflexivity|].
  exact (proj2 (proj2 (exportData_rows Sample.platform Sample_laws) s H)).
Defined.

(** ** More on strings *)

Module TrimFacts.
Import JsString.

Lemma allWhiteSpace_app a b :
  allWhiteSpace (a ++ b)%string = allWhiteSpace a && allWhiteSpace b.
Proof.
  induction a as [|c a IH]; simpl; [reflexivity|].
  now rewrite IH, Bool.andb_assoc.
Qed.

Lemma trimStart_fixed s : startsWithWhiteSpace s = false -> trimStart s = s.
Proof. destruct s as [|a r]; simpl; [reflexivity|]. now intros ->. Qed.

Lemma trimEnd_fixed s : endsWithWhiteSpace s = false -> trimEnd s = s.
Proof.
  induction s as [|a r IH]; [reflexivity|].
  destruct r as [|b r].
  - simpl. now intros ->.
  - intros H. change (endsWithWhiteSpace (String b r) = false) in H.
    change (trimEnd (String a (String b r)))
      with (match trimEnd (String b r) with
            | EmptyString => if isWhiteSpace a then EmptyString
                             else String a EmptyString
            | r' => String a r'
            end).
    now rewrite (IH H).
Qed.

Lemma trim_idempotent s : trim (trim s) = trim s.
Proof.
  destruct (JsStringFacts.trim_spec s) as (_ & _ & _ & _ & _ & Hs & He).
  unfold trim at 1. now rewrite (trimStart_fixed _ Hs), (trimEnd_fixed _ He).
Qed.

Lemma trimEnd_allWhiteSpace w : allWhiteSpace w = true -> trimEnd w = EmptyString.
Proof.
  induction w as [|a w IH]; simpl; [reflexivity|].
  intros H. apply Bool.andb_true_iff in H as (Ha & Hw).
  now rewrite (IH Hw), Ha.
Qed.

Lemma trimEnd_app w x :
  allWhiteSpace w = true -> trimEnd (x ++ w)%string = trimEnd x.
Proof.
  intros Hw. induction x as [|a x IH]; simpl.
  - now apply trimEnd_allWhiteSpace.
  - now rewrite IH.
Qed.

Lemma trimStart_app_l w x :
  allWhiteSpace w = true -> trimStart (w ++ x)%string = trimStart x.
Proof.
  induction w as [|a w IH]; simpl; [reflexivity|].
  intros H. apply Bool.andb_true_iff in H as (Ha & Hw). rewrite Ha. auto.
Qed.

Lemma trimStart_app_r w x :
  allWhiteSpace w = true ->
  trimStart (x ++ w)%string
  = if allWhiteSpace x then EmptyString else (trimStart x ++ w)%string.
Proof.
  intros Hw. induction x as [|a x IH]; simpl.
  - now apply JsStringFacts.trimStart_allWhiteSpace.
  - destruct (isWhiteSpace a); simpl; [exact IH | reflexivity].
Qed.

(** White space around a string does not show after [trim]. *)
Lemma trim_padded l x r :
  allWhiteSpace l = true -> allWhiteSpace r = true ->
  trim (l ++ x ++ r)%string = trim x.
Proof.
  intros Hl Hr. unfold trim.
  rewrite (trimStart_app_l _ _ Hl), (trimStart_app_r _ _ Hr).
  destruct (allWhiteSpace x) eqn:Hx.
  - now rewrite (JsStringFacts.trimStart_allWhiteSpace _ Hx).
  - now apply trimEnd_app.
Qed.

Lemma trim_empty_allWhiteSpace s :
  trim s = EmptyString <-> allWhiteSpace s = true.
Proof.
  split; [|apply JsStringFacts.trim_allWhiteSpace].
  intros H. destruct (JsStringFacts.trim_spec s) as (l & r & E & Hl & Hr & _).
  rewrite H in E. simpl in E. rewrite E, allWhiteSpace_app, Hl, Hr. reflexivity.
Qed.

Lemma split_whole c s :
  ~ In c (list_ascii_of_string s) -> split c s = [s].
Proof.
  induction s as [|a r IH]; simpl; [reflexivity|].
  intros H. destruct (Ascii.eqb_spec a c) as [E|_]; [tauto|].
  rewrite IH; tauto.
Qed.

Lemma split_at_separator c a b :
  ~ In c (list_ascii_of_string a) ->
  split c (a ++ String c b)%string = a :: split c b.
Proof.
  induction a as [|x a IH]; simpl.
  - now rewrite Ascii.eqb_refl.
  - intros H. destruct (Ascii.eqb_spec x c) as [E|_]; [tauto|].
    rewrite IH; tauto.
Qed.

Lemma split_join c lines :
  lines <> [] ->
  Forall (fun l => ~ In c (list_ascii_of_string l)) lines ->
  split c (join (String c EmptyString) lines) = lines.
Proof.
  intros Hne H. induction H as [|l rest Hl Hrest IH]; [congruence|].
  destruct rest as [|l2 rest].
  - simpl. now apply split_whole.
  - change (join (String c "") (l :: l2 :: rest))
      with (l ++ String c (join (String c "") (l2 :: rest)))%string.
    rewrite (split_at_separator _ _ _ Hl), IH; [reflexivity | discriminate].
Qed.

Lemma split_allWhiteSpace c s :
  allWhiteSpace s = true ->
  Forall (fun p => allWhiteSpace p = true) (split c s).
Proof.
  induction s as [|a r IH]; simpl; intros H.
  - now constructor.
  - apply Bool.andb_true_iff in H as (Ha & Hr). specialize (IH Hr).
    destruct (Ascii.eqb a c); [now constructor|].
    destruct (split c r) as [|p ps]; [now repeat constructor; simpl; rewrite Ha|].
    inversion IH; subst. constructor; [simpl; now rewrite Ha | assumption].
Qed.

End TrimFacts.

(** ** More on adding links *)

Section InputFacts.
Context {P : Platform}.

Lemma validUrls_app a b : validUrls (a ++ b) = validUrls a ++ validUrls b.
Proof. unfold validUrls. now rewrite map_app, filter_app. Qed.

Lemma newTasks_app k u v :
  newTasks k (u ++ v) = newTasks k u ++ newTasks (k + List.length u) v.
Proof.
  revert k. induction u as [|x u IH]; intros k; simpl.
  - now rewrite Nat.add_0_r.
  - rewrite IH. simpl. now rewrite Nat.add_succ_r.
Qed.

(** [processUrls] depends on its input through the valid links only. *)
Lemma processUrls_valid urls s :
  processUrls urls s
  = mkState (tasks s ++ newTasks (uuidCalls s) (validUrls urls))
      (isProcessing s) (uuidCalls s + List.length (validUrls urls))
      (world s) (tasksToProcess s) (loop_i s) (pc s).
Proof.
  unfold processUrls. destruct (validUrls urls) as [|u v]; simpl.
  - destruct s; simpl. now rewrite app_nil_r, Nat.add_0_r.
  - reflexivity.
Qed.

Lemma processUrls_same_valid urls urls' s :
  validUrls urls = validUrls urls' -> processUrls urls s = processUrls urls' s.
Proof. intros E. now rewrite !processUrls_valid, E. Qed.

Lemma validUrls_blank urls :
  Forall (fun u => JsString.allWhiteSpace u = true) urls -> validUrls urls = [].
Proof.
  unfold validUrls. induction 1 as [|u urls Hu _ IH]; simpl; [reflexivity|].
  rewrite (JsStringFacts.trim_allWhiteSpace u Hu). simpl. exact IH.
Qed.

Lemma firstColumn_app (Other : Type) (d1 d2 : list (list (SheetCell Other))) :
  firstColumn Other (d1 ++ d2) = firstColumn Other d1 ++ firstColumn Other d2.
Proof.
  induction d1 as [|row d1 IH]; simpl; [reflexivity|].
  destruct row as [|[s|o] row]; simpl; now rewrite IH.
Qed.

Lemma string_app_assoc (a b c : string) :
  ((a ++ b) ++ c)%string = (a ++ (b ++ c))%string.
Proof. induction a; simpl; congruence. Qed.

Lemma string_app_empty (a : string) : (a ++ EmptyString)%string = a.
Proof. induction a; simpl; congruence. Qed.

Lemma chars_app a b :
  list_ascii_of_string (a ++ b)
  = list_ascii_of_string a ++ list_ascii_of_string b.
Proof. induction a; simpl; congruence. Qed.

(** A text with Windows line endings is a text with plain ones whose lines,
    but the last, end in a carriage return. *)
Lemma crlf_lines lines :
  lines <> [] ->
  Forall (fun l => ~ In newline (list_ascii_of_string l)) lines ->
  exists padded,
    join (String "013"%char (String newline EmptyString)) lines
    = join (String newline EmptyString) padded /\
    padded <> [] /\
    Forall (fun l => ~ In newline (list_ascii_of_string l)) padded /\
    Forall2 (fun u v => exists l r,
               JsString.allWhiteSpace l = true /\
               JsString.allWhiteSpace r = true /\
               v = (l ++ u ++ r)%string) lines padded.
Proof.
  induction lines as [|l rest IH]; [congruence|]. intros _ H.
  inversion H as [|? ? Hl Hrest]; subst.
  destruct rest as [|l2 rest].
  - exists [l]. repeat split; auto; try discriminate.
    constructor; [|constructor].
    exists EmptyString, EmptyString. simpl. now rewrite string_app_empty.
  - destruct (IH ltac:(discriminate) Hrest) as (padded & E & Hne & Hnl & Hpad).
    exists ((l ++ String "013"%char EmptyString)%string :: padded).
    split; [|split; [discriminate|split]].
    + destruct padded as [|p ps]; [congruence|].
      change (join (String "013"%char (String newline "")) (l :: l2 :: rest))
        with (l ++ String "013"%char
                (String newline
                   (join (String "013"%char (String newline "")) (l2 :: rest))))%string.
      rewrite E.
      change (join (String newline "") ((l ++ String "013"%char "")%string :: p :: ps))
        with ((l ++ String "013"%char "")
              ++ String newline (join (String newline "") (p :: ps)))%string.
      now rewrite string_app_assoc.
    + constructor; [|exact Hnl].
      rewrite chars_app. intros Hin. apply in_app_or in Hin as [Hin|Hin];
        [tauto|]. simpl in Hin. destruct Hin as [Hin|[]]. discriminate.
    + constructor; [|exact Hpad].
      exists EmptyString, (String "013"%char EmptyString). repeat split.
Qed.

End InputFacts.

(** X1.  Adding links in two batches gives the state that adding them in
    one does, and adding none, or none that is valid, changes nothing. *)
Theorem processUrls_batches (P : Platform) (a b : list string) (s : State) :
  processUrls (a ++ b) s = processUrls b (processUrls a s) /\
  processUrls [] s = s /\
  (validUrls a = [] -> processUrls a s = s).
Proof.
  split; [|split].
  - rewrite (processUrls_valid b), !(processUrls_valid _ s). simpl.
    rewrite validUrls_app, newTasks_app, length_app, app_assoc, Nat.add_assoc.
    reflexivity.
  - reflexivity.
  - intros H. unfold processUrls. now rewrite H.
Qed.

Lemma processUrls_batches_witness :
  validUrls ["not-a-url"; "ftp://a/x.pdf"] = [] /\
  processUrls ["not-a-url"; "ftp://a/x.pdf"] Sample.queue3 = Sample.queue3.
Proof.
  split; [reflexivity|].
  apply (processUrls_batches Sample.platform _ []). reflexivity.
Defined.

(** X2.  [processUrls] sees its input strings trimmed only: white space
    around any of them (the carriage return a Windows line ending leaves,
    say) changes nothing, and neither does trimming them beforehand. *)
Theorem processUrls_ignores_padding (P : Platform) (urls padded : list string)
    (s : State) :
  Forall2 (fun u v => exists l r,
             JsString.allWhiteSpace l = true /\
             JsString.allWhiteSpace r = true /\
             v = (l ++ u ++ r)%string) urls padded ->
  processUrls padded s = processUrls urls s /\
  processUrls (map JsString.trim urls) s = processUrls urls s.
Proof.
  intros H. split; apply processUrls_same_valid; unfold validUrls; f_equal.
  - induction H as [|u v urls padded (l & r & Hl & Hr & ->) _ IH]; simpl;
      [reflexivity|].
    now rewrite IH, TrimFacts.trim_padded.
  - rewrite map_map. apply map_ext. exact TrimFacts.trim_idempotent.
Qed.

Lemma processUrls_ignores_padding_witness :
  let cr := String "013"%char EmptyString in
  processUrls [("https://a/x.pdf" ++ cr)%string; ("  https://b/y.pdf" ++ cr)%string]
    Sample.start
  = processUrls ["https://a/x.pdf"; "https://b/y.pdf"] Sample.start.
Proof.
  intros cr.
  apply (processUrls_ignores_padding Sample.platform).
  constructor; [exists EmptyString, cr; repeat split|].
  constructor; [exists "  ", cr; repeat split|]. constructor.
Defined.

(** X3.  [addFromTextarea] empties the text area and queues the lines of
    the text: for lines without a line feed, joined by line feeds or by
    carriage return and line feed, the state is that of [processUrls] on
    the lines.  A blank text, for which the button is disabled, would add
    nothing. *)
Theorem addFromTextarea_lines (P : Platform) (s : State) :
  (forall text, fst (addFromTextarea text s) = EmptyString) /\
  (forall lines,
     lines <> [] ->
     Forall (fun l => ~ In newline (list_ascii_of_string l)) lines ->
     snd (addFromTextarea (join (String newline EmptyString) lines) s)
     = processUrls lines s /\
     snd (addFromTextarea
            (join (String "013"%char (String newline EmptyString)) lines) s)
     = processUrls lines s) /\
  (forall text,
     JsString.trim text = EmptyString ->
     addDisabled text s = true /\ snd (addFromTextarea text s) = s).
Proof.
  split; [reflexivity|]. split.
  - intros lines Hne Hlines. unfold addFromTextarea; simpl. split.
    + now rewrite TrimFacts.split_join.
    + destruct (crlf_lines lines Hne Hlines) as (padded & E & Hne' & Hnl & Hpad).
      rewrite E, TrimFacts.split_join by assumption.
      apply processUrls_same_valid. unfold validUrls. f_equal.
      clear E Hne Hne' Hnl Hlines.
      induction Hpad as [|u v us vs (l & r & Hl & Hr & ->) _ IH]; simpl;
        [reflexivity|].
      now rewrite IH, TrimFacts.trim_padded.
  - intros text H. split.
    + unfold addDisabled. now rewrite H.
    + unfold addFromTextarea; simpl.
      apply TrimFacts.trim_empty_allWhiteSpace in H.
      unfold processUrls.
      now rewrite (validUrls_blank _ (TrimFacts.split_allWhiteSpace newline _ H)).
Qed.

Lemma addFromTextarea_lines_witness :
  let lines := ["https://a/x.pdf"; "not-a-url"; "https://b/y.pdf"] in
  lines <> [] /\
  Forall (fun l => ~ In newline (list_ascii_of_string l)) lines /\
  JsString.trim "   " = EmptyString /\
  snd (addFromTextarea
         (join (String "013"%char (String newline EmptyString)) lines)
         Sample.start)
  = processUrls lines Sample.start /\
  snd (addFromTextarea "   " Sample.start) = Sample.start.
Proof.
  intros lines.
  assert (Hne : lines <> []) by discriminate.
  assert (Hl : Forall (fun l => ~ In newline (list_ascii_of_string l)) lines).
  { repeat constructor; intros H; simpl in H;
      repeat (destruct H as [H|H]; [discriminate|]); exact H. }
  destruct (addFromTextarea_lines Sample.platform Sample.start)
    as (_ & H1 & H2).
  split; [exact Hne|]. split; [exact Hl|]. split; [reflexivity|].
  split; [exact (proj2 (H1 lines Hne Hl)) | exact (proj2 (H2 "   " eq_refl))].
Defined.

(** X4.  When the sheet cannot be read, [handleExcelUpload] leaves the state
    as it is and alerts.  Otherwise it queues the first cells that are
    strings, row by row: a row that is empty or starts with another kind of
    cell adds nothing, and cells beyond the first never matter. *)
Theorem onSheetLoaded_first_column (P : Platform) (Other : Type) (s : State) :
  (forall msg, onSheetLoaded Other (Rejected msg) s = (s, Some parse_alert)) /\
  (forall data,
     onSheetLoaded Other (Resolved data) s
     = onSheetLoaded Other (Resolved (map (firstn 1) data)) s) /\
  (forall d1 row d2,
     (forall u, nth_error row 0 <> Some (CellText u)) ->
     onSheetLoaded Other (Resolved (d1 ++ row :: d2)) s
     = onSheetLoaded Other (Resolved (d1 ++ d2)) s) /\
  (forall rows : list (string * list (SheetCell Other)),
     onSheetLoaded Other
       (Resolved (map (fun r => CellText (fst r) :: snd r) rows)) s
     = (processUrls (map fst rows) s, None)).
Proof.
  split; [reflexivity|]. split; [|split].
  - intros data. unfold onSheetLoaded. do 2 f_equal.
    induction data as [|row data IH]; [reflexivity|].
    destruct row as [|[u|o] row]; simpl; now rewrite IH.
  - intros d1 row d2 H. unfold onSheetLoaded. do 2 f_equal.
    rewrite !firstColumn_app. f_equal.
    destruct row as [|[u|o] row]; try reflexivity.
    now destruct (H u).
  - intros rows. unfold onSheetLoaded. do 2 f_equal.
    induction rows as [|r rows IH]; simpl; [reflexivity|]. now rewrite IH.
Qed.

Lemma onSheetLoaded_first_column_witness :
  let header : list (SheetCell nat) := [CellOther 7%nat; CellText "https://c/z.pdf"] in
  (forall u, nth_error header 0 <> Some (CellText u)) /\
  onSheetLoaded nat
    (Resolved ([[CellText "https://a/x.pdf"]] ++ header :: [[]])) Sample.start
  = onSheetLoaded nat
      (Resolved ([[CellText "https://a/x.pdf"]] ++ [[]])) Sample.start.
Proof.
  intros header.
  assert (H : forall u, nth_error header 0 <> Some (CellText u))
    by (intros u; discriminate).
  split; [exact H|].
  exact (proj1 (proj2 (proj2 (onSheetLoaded_first_column
                                Sample.platform nat Sample.start)))
           _ header _ H).
Defined.

(** ** More on the queue *)

Section QueueFacts.
Context {P : Platform}.

Lemma filter_all {A} (f : A -> bool) l :
  (forall x, In x l -> f x = true) -> filter f l = l.
Proof.
  induction l as [|a l IH]; simpl; intros H; [reflexivity|].
  rewrite (H a (or_introl eq_refl)), IH; auto.
Qed.

Lemma step_identity s e s1 :
  step s = Some (e, s1) ->
  map identity (tasks s1) = map identity (tasks s) /\
  tasks s1 = applyEvent (tasks s) e /\
  uuidCalls s1 = uuidCalls s.
Proof.
  assert (Hup : forall k p l, map identity (updateTask k p l) = map identity l).
  { intros k p l. unfold updateTask. rewrite map_map. apply map_ext.
    intros t. destruct (String.eqb (id t) k); [|reflexivity].
    unfold identity. now rewrite patch_id, patch_url, patch_fileName. }
  unfold step, finishTask. intros Hstep.
  destruct (pc s) as [| |task|task r|task b]; [discriminate| | | |].
  - destruct (nth_error _ _) as [task|];
      [destruct (TaskStatus_eqb _ _)|]; inversion Hstep; subst; simpl; auto.
  - destruct (fetch _ _) as [[r|msg] w]; [destruct (negb (ok r))|];
      inversion Hstep; subst; simpl; auto.
  - destruct (blob _ _) as [[b|msg] w]; inversion Hstep; subst; simpl; auto.
  - destruct (getPageCount _ _) as [[n|msg] w];
      inversion Hstep; subst; simpl; auto.
Qed.

Lemma steps_replay n :
  forall s tr s1, steps n s = (tr, s1) ->
    map identity (tasks s1) = map identity (tasks s) /\
    tasks s1 = replay tr (tasks s) /\
    uuidCalls s1 = uuidCalls s.
Proof.
  induction n as [|n IH]; intros s tr s1 H; simpl in H.
  - inversion H; subst. auto.
  - destruct (step s) as [[e s2]|] eqn:Hstep.
    + destruct (steps n s2) as [tr2 s3] eqn:E. inversion H; subst.
      destruct (step_identity _ _ _ Hstep) as (E1 & E2 & E3).
      destruct (IH _ _ _ E) as (F1 & F2 & F3).
      simpl. rewrite F1, F2, F3, E1, E2, E3. auto.
    + inversion H; subst. auto.
Qed.


Lemma identity_Forall (Q : string * string * string -> Prop) l1 l2 :
  map identity l1 = map identity l2 ->
  Forall (fun t => Q (identity t)) l2 -> Forall (fun t => Q (identity t)) l1.
Proof.
  revert l2. induction l1 as [|a l1 IH]; intros [|b l2] E H;
    simpl in E; try discriminate; constructor; inversion E; inversion H; subst.
  - congruence.
  - eapply IH; eauto.
Qed.

Lemma Inv_ids s : Inv s -> NoDup (map id (tasks s)) /\ issued s.
Proof.
  unfold Inv. intros H.
  destruct (pc s);
    [destruct H as (_ & _ & Hnd & Hi & _) | | | |];
    try destruct H as (Hnd & Hi & _); auto.
Qed.

Lemma evolves_reachable s s1 : reachable s -> evolves s s1 -> reachable s1.
Proof.
  intros Hr. induction 1; eauto using reachable.
Qed.

End QueueFacts.

(** X5.  In every reachable state the identifiers of the queue are pairwise
    distinct, and each is one of the identifiers handed out so far. *)
Theorem ids_unique (P : Platform) (L : PlatformLaws P) (s : State) :
  reachable s ->
  NoDup (map id (tasks s)) /\
  forall t, In t (tasks s) ->
    exists k, (k < uuidCalls s)%nat /\ id t = uuidv4 k.
Proof.
  intros H. exact (Inv_ids s (reachable_Inv s H)).
Qed.

Lemma ids_unique_witness :
  let s := removeTask "1u" (snd (steps 20 (runTasks Sample.queue3))) in
  reachable s /\ NoDup (map id (tasks s)).
Proof.
  intros s.
  assert (H : reachable s).
  { apply reach_removeTask; [|reflexivity].
    apply (@steps_reachable Sample.platform 20), reach_runTasks; [|reflexivity].
    apply reach_processUrls, reach_initial. }
  split; [exact H|].
  exact (proj1 (ids_unique Sample.platform Sample_laws s H)).
Defined.

(** X6.  [removeTask] removes the tasks with the given identifier and only
    them: the others stay, in their order; nothing changes when no task has
    it; with distinct identifiers exactly the one task goes; and removing
    twice is removing once. *)
Theorem removeTask_exact (P : Platform) (taskId : string) (s : State) :
  (forall t, In t (tasks (removeTask taskId s)) <->
             In t (tasks s) /\ id t <> taskId) /\
  (~ In taskId (map id (tasks s)) -> removeTask taskId s = s) /\
  (forall a x b,
     NoDup (map id (tasks s)) -> tasks s = a ++ x :: b -> id x = taskId ->
     tasks (removeTask taskId s) = a ++ b) /\
  removeTask taskId (removeTask taskId s) = removeTask taskId s.
Proof.
  assert (Hkeep : forall l, ~ In taskId (map id l) ->
            filter (fun t => negb (String.eqb (id t) taskId)) l = l).
  { intros l H. apply filter_all. intros x Hx.
    destruct (String.eqb_spec (id x) taskId) as [E|_]; [|reflexivity].
    exfalso. apply H. rewrite <- E. now apply in_map. }
  split; [|split; [|split]].
  - intros t. unfold removeTask; simpl. rewrite filter_In.
    destruct (String.eqb_spec (id t) taskId); simpl; intuition congruence.
  - intros H. unfold removeTask. rewrite (Hkeep _ H). now destruct s.
  - intros a x b Hnd E Hid. unfold removeTask; simpl.
    rewrite E, map_app in Hnd. simpl in Hnd.
    pose proof (NoDup_remove_2 _ _ _ Hnd) as Hx. rewrite Hid in Hx.
    rewrite E, filter_app. simpl. rewrite Hid, String.eqb_refl. simpl.
    rewrite !Hkeep; [reflexivity | |];
      intro; apply Hx; apply in_or_app; auto.
  - unfold removeTask; simpl. f_equal.
    apply filter_all. intros x Hx. now apply filter_In in Hx.
Qed.

Lemma removeTask_exact_witness :
  NoDup (map id (tasks Sample.queue3)) /\
  tasks (removeTask "1u" Sample.queue3)
  = [ mkTask "u" "https://a/x.pdf" "x.pdf" None IDLE None;
      mkTask "11u" "https://a/x.pdf" "x.pdf" None IDLE None ] /\
  removeTask "none" Sample.queue3 = Sample.queue3.
Proof.
  destruct (removeTask_exact Sample.platform "1u" Sample.queue3)
    as (_ & _ & H & _).
  destruct (removeTask_exact Sample.platform "none" Sample.queue3)
    as (_ & H' & _).
  assert (Hnd : NoDup (map id (tasks Sample.queue3))).
  { repeat constructor; simpl; intuition discriminate. }
  split; [exact Hnd|]. split.
  - exact (H [mkTask "u" "https://a/x.pdf" "x.pdf" None IDLE None]
             (mkTask "1u" "https://b/y.pdf" "y.pdf" None IDLE None)
             [mkTask "11u" "https://a/x.pdf" "x.pdf" None IDLE None]
             Hnd eq_refl eq_refl).
  - apply H'. simpl. intuition discriminate.
Defined.

(** X7.  An identifier never comes to name another link: whatever is added,
    removed, cleared or run after a reachable state, a task met later with
    the identifier of a task of that state has its link and its file
    name. *)
Theorem ids_never_reused (P : Platform) (L : PlatformLaws P) (s s1 : State) :
  reachable s -> evolves s s1 ->
  forall t t1, In t (tasks s) -> In t1 (tasks s1) -> id t1 = id t ->
    url t1 = url t /\ fileName t1 = fileName t.
Proof.
  intros Hr Hev.
  assert (J : (uuidCalls s <= uuidCalls s1)%nat /\
              forall t1, In t1 (tasks s1) ->
                (exists t, In t (tasks s) /\ identity t1 = identity t) \/
                (exists k, (uuidCalls s <= k)%nat /\ id t1 = uuidv4 k)).
  { induction Hev as [s|s s1 urls _ IH|s s1 k _ IH Hip|s s1 _ IH Hip
                      |s s1 _ IH Hip|s s1 e s2 _ IH Hstep];
      try (destruct (IH Hr) as (Hle & IH')).
    - split; [lia|]. intros t1 Ht1. left. eauto.
    - rewrite processUrls_uuidCalls, processUrls_tasks. split; [lia|].
      intros t1 Ht1. apply in_app_or in Ht1 as [Ht1|Ht1]; [auto|].
      right. apply (in_map id) in Ht1. rewrite newTasks_id in Ht1.
      apply in_map_iff in Ht1 as (j & E & Hj). apply in_seq in Hj.
      exists j. split; [lia | now symmetry].
    - split; [exact Hle|]. intros t1 Ht1. simpl in Ht1.
      apply filter_In in Ht1 as (Ht1 & _). auto.
    - split; [exact Hle|]. intros t1 [].
    - split; [exact Hle|]. exact IH'.
    - destruct (step_identity _ _ _ Hstep) as (E1 & _ & E3).
      split; [lia|]. intros t2 Ht2.
      apply (in_map identity) in Ht2. rewrite E1 in Ht2.
      apply in_map_iff in Ht2 as (t1 & E & Ht1).
      destruct (IH' _ Ht1) as [(t & Ht & Et)|(k & Hk & Ek)].
      + left. exists t. split; [exact Ht | congruence].
      + right. exists k. split; [exact Hk|].
        unfold identity in E. congruence. }
  destruct J as (_ & J).
  intros t t1 Ht Ht1 Eid.
  pose proof (Inv_ids s (reachable_Inv s Hr)) as Hids.
  destruct Hids as (Hnd & Hi).
  destruct (J _ Ht1) as [(t0 & Ht0 & E)|(k & Hk & Ek)].
  - assert (t0 = t).
    { apply (same_id_same_task (tasks s)); auto.
      unfold identity in E. congruence. }
    subst t0. unfold identity in E. inversion E. auto.
  - destruct (Hi _ Ht) as (j & Hj & Ej).
    assert (j = k) by (apply uuidv4_inj; congruence). lia.
Qed.

Lemma ids_never_reused_witness :
  let s := Sample.queue3 in
  let s1 := snd (steps 20 (runTasks
                             (processUrls ["https://c/z.pdf"] (clearAll s)))) in
  reachable s /\ evolves s s1 /\
  forall t t1, In t (tasks s) -> In t1 (tasks s1) -> id t1 = id t ->
    url t1 = url t /\ fileName t1 = fileName t.
Proof.
  intros s s1.
  assert (Hr : reachable s) by apply reach_processUrls, reach_initial.
  assert (He : evolves s s1).
  { unfold s1.
    assert (H : forall n s2, evolves s s2 -> evolves s (snd (steps n s2))).
    { induction n as [|n IH]; intros s2 H2; simpl; [exact H2|].
      destruct (step s2) as [[e s3]|] eqn:E; [|exact H2].
      specialize (IH s3 (evolves_step _ _ _ _ H2 E)).
      destruct (steps n s3). exact IH. }
    apply H, evolves_runTasks; [|reflexivity].
    apply evolves_processUrls, evolves_clearAll; [|reflexivity].
    apply evolves_refl. }
  split; [exact Hr|]. split; [exact He|].
  exact (ids_never_reused Sample.platform Sample_laws s s1 Hr He).
Defined.



(** X9.  In every reachable state each task has the link it was created
    with, trimmed and starting with an allowed prefix, and the file name
    derived from that link, which is never empty. *)
Theorem tasks_keep_their_link (P : Platform) (s : State) :
  reachable s ->
  (forall u, getFileNameFromUrl u <> EmptyString) /\
  Forall (fun t => fileName t = getFileNameFromUrl (url t) /\
                   fileName t <> EmptyString /\
                   Described.hasAllowedScheme (url t) = true /\
                   JsString.trim (url t) = url t) (tasks s).
Proof.
  intros Hr.
  assert (Hne : forall u, getFileNameFromUrl u <> EmptyString).
  { intros u. unfold getFileNameFromUrl, default_name.
    destruct (newURL u); [|discriminate].
    destruct (decodeURIComponent _) as [[|a d]|]; simpl; discriminate. }
  split; [exact Hne|].
  set (Q := fun i : string * string * string =>
              snd i = getFileNameFromUrl (snd (fst i)) /\
              Described.hasAllowedScheme (snd (fst i)) = true /\
              JsString.trim (snd (fst i)) = snd (fst i)).
  assert (HQ : Forall (fun t => Q (identity t)) (tasks s)).
  { induction Hr as [w|s urls _ IH|s k _ IH Hip|s _ IH Hip|s _ IH Hip
                     |s e s1 _ IH Hstep].
    - constructor.
    - rewrite processUrls_tasks. apply Forall_app. split; [exact IH|].
      apply Forall_forall. intros t Ht.
      pose proof (newTasks_fresh (uuidCalls s) (validUrls urls)) as Hf.
      rewrite Forall_forall in Hf. destruct (Hf _ Ht) as (_ & Hname).
      apply (in_map url) in Ht. rewrite newTasks_url in Ht.
      unfold validUrls in Ht. apply filter_In in Ht as (Hin & Hv).
      apply in_map_iff in Hin as (raw & E & _).
      unfold Q, identity; simpl. split; [exact Hname|].
      split; [now rewrite <- isValidUrl_scheme|].
      rewrite <- E. apply TrimFacts.trim_idempotent.
    - simpl. apply Forall_forall. intros t Ht.
      apply filter_In in Ht as (Ht & _). rewrite Forall_forall in IH. auto.
    - constructor.
    - exact IH.
    - destruct (step_identity _ _ _ Hstep) as (E & _).
      exact (identity_Forall Q _ _ E IH). }
  eapply Forall_impl; [|exact HQ].
  intros t (H1 & H2 & H3). unfold identity in *; simpl in *.
  repeat split; auto. rewrite H1. apply Hne.
Qed.

Lemma tasks_keep_their_link_witness :
  let s := snd (steps 6 (runTasks Sample.queue3)) in
  reachable s /\
  Forall (fun t => fileName t
                   = getFileNameFromUrl (P := Sample.platform) (url t) /\
                   fileName t <> EmptyString /\
                   Described.hasAllowedScheme (url t) = true /\
                   JsString.trim (url t) = url t) (tasks s).
Proof.
  intros s.
  assert (H : reachable s).
  { apply (@steps_reachable Sample.platform 6), reach_runTasks; [|reflexivity].
    apply reach_processUrls, reach_initial. }
  split; [exact H|].
  exact (proj2 (tasks_keep_their_link Sample.platform s H)).
Defined.

(** ** More on the run *)

Section RunMore.
Context {P : Platform}.

Lemma loop_all_completed todo w :
  Forall (fun t => status t = COMPLETED) todo ->
  loop todo w = (map (fun t => Continue (id t)) todo ++ [Return], w).
Proof.
  induction 1 as [|t todo Ht _ IH]; simpl; [reflexivity|].
  unfold iteration. rewrite Ht. simpl. now rewrite IH.
Qed.

Lemma loop_world todo w :
  snd (loop todo w) = snd (loop (filter notCompleted todo) w).
Proof.
  revert w. induction todo as [|t todo IH]; intros w; [reflexivity|].
  simpl. unfold notCompleted at 1, iteration at 1.
  destruct (TaskStatus_eqb (status t) COMPLETED) eqn:E; simpl.
  - specialize (IH w). destruct (loop todo w). exact IH.
  - unfold iteration. rewrite E.
    destruct (afterFetch t w) as [evs w1]. specialize (IH w1).
    destruct (loop todo w1), (loop (filter notCompleted todo) w1). exact IH.
Qed.

Lemma replay_no_update tr ts :
  Forall (fun e => forall k p, e <> Update k p) tr -> replay tr ts = ts.
Proof.
  unfold replay. induction 1 as [|e tr He _ IH]; simpl; [reflexivity|].
  destruct e as [k|k p| k|]; simpl; auto. now destruct (He k p).
Qed.

Lemma steps_returned n s : pc s = NotRunning -> steps n s = ([], s).
Proof.
  intros H. destruct n; [reflexivity|]. simpl. unfold step. now rewrite H.
Qed.

Lemma steps_flag n :
  forall s tr s1,
    pc s <> NotRunning -> steps n s = (tr, s1) -> pc s1 = NotRunning ->
    isProcessing s1 = false.
Proof.
  induction n as [|n IH]; intros s tr s1 Hpc H Hret; simpl in H.
  - inversion H; subst. contradiction.
  - destruct (step s) as [[e s2]|] eqn:Hstep.
    + destruct (steps n s2) as [tr2 s3] eqn:E. inversion H; subst.
      destruct (pc s2) eqn:Epc2;
        try (apply (IH s2 tr2); [congruence | exact E | exact Hret]).
      rewrite (steps_returned n s2 Epc2) in E. inversion E; subst.
      unfold step, finishTask in Hstep.
      destruct (pc s) as [| |task|task r|task b]; [discriminate| | | |].
      * destruct (nth_error _ _);
          [destruct (TaskStatus_eqb _ _)|]; inversion Hstep; subst;
          simpl in *; congruence.
      * destruct (fetch _ _) as [[r|msg] w]; [destruct (negb (ok r))|];
          inversion Hstep; subst; discriminate.
      * destruct (blob _ _) as [[b|msg] w]; inversion Hstep; subst; discriminate.
      * destruct (getPageCount _ _) as [[k|msg] w];
          inversion Hstep; subst; discriminate.
    + inversion H; subst. contradiction.
Qed.

Lemma settled_showRun ts :
  Forall settled ts -> showRun ts = existsb notCompleted ts.
Proof.
  unfold showRun. induction 1 as [|t ts (_ & Ht) _ IH]; simpl; [reflexivity|].
  rewrite IH. unfold notCompleted.
  destruct Ht as [E|[E|E]]; rewrite E; reflexivity.
Qed.

Lemma existsb_filter {A} (f : A -> bool) l :
  existsb f l = true <-> filter f l <> [].
Proof.
  induction l as [|a l IH]; simpl; [split; congruence|].
  destruct (f a); simpl; [split; [discriminate | reflexivity] | exact IH].
Qed.

Lemma terminal_counts ts :
  Forall terminal ts ->
  (countStatus COMPLETED ts + countStatus FAILED ts = List.length ts)%nat /\
  showRun ts = (0 <? countStatus FAILED ts)%nat /\
  showExport ts = (0 <? List.length ts)%nat /\
  Forall (fun r => isPending (Page_Count r) = false) (exportData ts).
Proof.
  unfold countStatus, showRun, showExport, exportData.
  induction 1 as [|t ts ((Hp & _) & Ht) _ (IH1 & IH2 & IH3 & IH4)]; simpl.
  - repeat split; constructor.
  - unfold exportRow, isSet in *.
    destruct Ht as [E|E]; rewrite E in *; simpl.
    + repeat split; [lia | exact IH2 |].
      constructor; [|exact IH4]. simpl.
      destruct (pageCount t); [reflexivity|]. exfalso. now apply Hp.
    + repeat split; [lia|].
      constructor; [|exact IH4]. simpl.
      destruct (pageCount t) as [n|] eqn:En; [|reflexivity].
      assert (FAILED = COMPLETED) by (apply Hp; discriminate). discriminate.
Qed.

End RunMore.

(** X10.  A COMPLETED task costs a run nothing: the world after the loop is
    the world after the loop over the tasks that are not COMPLETED.  When
    every task is COMPLETED, and so when the queue is empty, the run only
    passes over the tasks and returns, leaving the queue and the world as
    they were. *)
Theorem completed_tasks_cost_nothing (P : Platform) :
  (forall todo w,
     snd (loop todo w) = snd (loop (filter notCompleted todo) w)) /\
  (forall s0,
     Forall (fun t => status t = COMPLETED) (tasks s0) ->
     exists s1,
       steps (List.length (tasks s0) + 1) (runTasks s0)
       = (map (fun t => Continue (id t)) (tasks s0) ++ [Return], s1) /\
       tasks s1 = tasks s0 /\ world s1 = world s0 /\
       isProcessing s1 = false /\ pc s1 = NotRunning).
Proof.
  split; [exact loop_world|].
  intros s0 Hall.
  pose proof (loop_all_completed (tasks s0) (world s0) Hall) as Hloop.
  destruct (steps_complete (List.length (tasks s0) + 1) (runTasks s0))
    as (s1 & Hs & Hpc).
  { rewrite remaining_runTasks, Hloop. simpl.
    rewrite length_app, length_map. simpl. lia. }
  rewrite remaining_runTasks, Hloop in Hs. simpl in Hs.
  exists s1. split; [exact Hs|].
  destruct (steps_replay _ _ _ _ Hs) as (_ & Ht & _).
  destruct (exec_remaining _ _ _ (steps_exec _ _ _ _ Hs)) as (_ & Hw).
  rewrite remaining_runTasks, Hloop in Hw. simpl in Hw.
  unfold remaining in Hw. rewrite Hpc in Hw. simpl in Hw.
  split; [|split; [now symmetry|split; [|exact Hpc]]].
  - rewrite Ht. simpl. apply replay_no_update.
    apply Forall_app. split; [|repeat constructor; discriminate].
    apply Forall_forall. intros e He.
    apply in_map_iff in He as (t & <- & _). discriminate.
  - eapply (steps_flag _ (runTasks s0));
      [simpl; discriminate | exact Hs | exact Hpc].
Qed.

Lemma completed_tasks_cost_nothing_witness :
  let s0 := removeTask "1u" (snd (steps 20 (runTasks Sample.queue3))) in
  Forall (fun t => status t = COMPLETED) (tasks s0) /\
  exists s1,
    steps (List.length (tasks s0) + 1) (runTasks s0)
    = (map (fun t => Continue (id t)) (tasks s0) ++ [Return], s1) /\
    tasks s1 = tasks s0 /\ world s1 = world s0 /\
    isProcessing s1 = false /\ pc s1 = NotRunning.
Proof.
  intros s0.
  assert (H : Forall (fun t => status t = COMPLETED) (tasks s0))
    by (repeat constructor).
  split; [exact H|].
  exact (proj2 (completed_tasks_cost_nothing Sample.platform) s0 H).
Defined.



(** X12.  When a run made alone from a queue with no run in progress has
    returned, the queue has the length it had, the Done and Failed counters
    add up to the Total, the Export button is shown unless the queue is
    empty, the Run button is shown exactly when some task FAILED, and no
    row of the export says ["Pending"]. *)
Theorem queue_progress_after_run (P : Platform) (L : PlatformLaws P)
    (s0 : State) :
  Quiescent s0 ->
  forall tr s1,
    steps (4 * List.length (tasks s0) + 1) (runTasks s0) = (tr, s1) ->
    List.length (tasks s1) = List.length (tasks s0) /\
    (countStatus COMPLETED (tasks s1) + countStatus FAILED (tasks s1)
     = List.length (tasks s1))%nat /\
    showRun (tasks s1) = (0 <? countStatus FAILED (tasks s1))%nat /\
    showExport (tasks s1) = (0 <? List.length (tasks s1))%nat /\
    Forall (fun r => isPending (Page_Count r) = false)
      (exportData (tasks s1)).
Proof.
  intros HQ tr s1 Hs.
  destruct (steps_complete (4 * List.length (tasks s0) + 1) (runTasks s0))
    as (s1' & Hs' & Hpc); [rewrite remaining_runTasks; apply loop_length|].
  rewrite Hs in Hs'. inversion Hs'; subst s1'. clear Hs'.
  destruct (steps_replay _ _ _ _ Hs) as (Hid & _).
  assert (Hlen : List.length (tasks s1) = List.length (tasks s0)).
  { rewrite <- (length_map identity (tasks s1)), Hid. apply length_map. }
  destruct (run_Progress _ _ _ HQ (steps_exec _ _ _ _ Hs)) as (HP & HS & _).
  destruct HP as (_ & _ & sdone & todo & done & extra &
                  _ & Hproc & _ & _ & Hflag & Hcur).
  rewrite Hpc in Hflag, Hcur. simpl in Hcur.
  destruct Hflag as (_ & ->). destruct Hcur as (HS' & HT).
  rewrite HS, app_nil_r in HS'. subst sdone. simpl in HT.
  assert (extra = []).
  { pose proof (Forall2_length Hproc) as Hl.
    rewrite HT, length_app in Hlen. destruct extra; [reflexivity|].
    simpl in Hlen. lia. }
  subst extra. rewrite app_nil_r in HT.
  split; [exact Hlen|]. rewrite HT.
  apply terminal_counts. apply Forall_forall. intros t Ht.
  destruct (Forall2_right _ _ _ _ Hproc Ht) as (t0 & _ & Hp). apply Hp.
Qed.

Lemma queue_progress_after_run_witness :
  let s0 := Sample.queue3 in
  let s1 := snd (steps (4 * List.length (tasks s0) + 1) (runTasks s0)) in
  Quiescent s0 /\
  countStatus COMPLETED (tasks s1) = 2%nat /\
  countStatus FAILED (tasks s1) = 1%nat /\
  (countStatus COMPLETED (tasks s1) + countStatus FAILED (tasks s1)
   = List.length (tasks s1))%nat /\
  showRun (tasks s1) = true.
Proof.
  intros s0 s1.
  assert (H : Quiescent s0).
  { apply (@reachable_Quiescent Sample.platform Sample_laws); [|reflexivity].
    apply reach_processUrls, reach_initial. }
  split; [exact H|]. split; [reflexivity|]. split; [reflexivity|].
  destruct (queue_progress_after_run Sample.platform Sample_laws s0 H
              _ s1 (surjective_pairing _)) as (_ & H1 & H2 & _).
  split; [exact H1 | exact H2].
Defined.

(** X13.  While no run is in progress the Run button is shown exactly when
    a run would start some task; when it is not shown every task is
    COMPLETED. *)
Theorem run_button_means_work (P : Platform) (L : PlatformLaws P) (s : State) :
  Quiescent s ->
  (showRun (tasks s) = true <->
   started (fst (loop (tasks s) (world s))) <> []) /\
  (showRun (tasks s) = false ->
   Forall (fun t => status t = COMPLETED) (tasks s)).
Proof.
  intros (_ & _ & _ & _ & Hall).
  rewrite (settled_showRun _ Hall).
  rewrite (proj1 (loop_started (tasks s) (world s))).
  split.
  - rewrite existsb_filter.
    destruct (filter notCompleted (tasks s)); simpl;
      split; congruence.
  - intros H. apply Forall_forall. intros t Ht.
    destruct (TaskStatus_eqb_spec (status t) COMPLETED) as [E|E]; [exact E|].
    exfalso. rewrite <- Bool.not_true_iff_false in H. apply H.
    apply existsb_exists. exists t. split; [exact Ht|].
    unfold notCompleted. destruct (TaskStatus_eqb_spec (status t) COMPLETED);
      [contradiction | reflexivity].
Qed.

Lemma run_button_means_work_witness :
  Quiescent Sample.retry1 /\ showRun (tasks Sample.retry1) = true /\
  started (fst (loop (tasks Sample.retry1) (world Sample.retry1))) = ["1u"].
Proof.
  assert (H : Quiescent Sample.retry1).
  { apply (@reachable_Quiescent Sample.platform Sample_laws); [|reflexivity].
    apply (@steps_reachable Sample.platform 9), reach_runTasks; [|reflexivity].
    apply reach_processUrls, reach_initial. }
  split; [exact H|]. split; [|reflexivity].
  apply (proj1 (run_button_means_work Sample.platform Sample_laws _ H)).
  discriminate.
Defined.

(** X14.  When a run has returned, with links added meanwhile or not, no
    run is in progress and the queue is again one a run can start from:
    identifiers distinct, each task IDLE, COMPLETED or FAILED with the
    matching [pageCount] and [error].  The world is then the one the loop
    over the copy leaves: links added during the run change nothing of what
    the run asks of the network. *)
Theorem run_can_be_repeated (P : Platform) (L : PlatformLaws P) (s0 : State) :
  Quiescent s0 ->
  forall tr s1, exec (runTasks s0) tr s1 -> pc s1 = NotRunning ->
    Quiescent s1 /\ world s1 = snd (loop (tasks s0) (world s0)).
Proof.
  intros HQ tr s1 Hexec Hpc.
  destruct (run_Progress _ _ _ HQ Hexec) as (HP & _ & _).
  split; [now apply Progress_returned|].
  destruct (exec_remaining _ _ _ Hexec) as (_ & Hw).
  rewrite remaining_runTasks in Hw. rewrite Hw.
  unfold remaining. now rewrite Hpc.
Qed.

Lemma run_can_be_repeated_witness :
  let s0 := Sample.queue3 in
  let s1 := processUrls ["https://c/z.pdf"] (snd (steps 2 (runTasks s0))) in
  let s2 := snd (steps 20 s1) in
  Quiescent s0 /\
  exec (runTasks s0)
    (fst (steps 2 (runTasks s0)) ++ fst (steps 20 s1)) s2 /\
  pc s2 = NotRunning /\ Quiescent s2 /\ world s2 = 3%nat.
Proof.
  intros s0 s1 s2.
  assert (H : Quiescent s0).
  { apply (@reachable_Quiescent Sample.platform Sample_laws); [|reflexivity].
    apply reach_processUrls, reach_initial. }
  assert (Hexec : exec (runTasks s0)
                    (fst (steps 2 (runTasks s0)) ++ fst (steps 20 s1)) s2).
  { eapply exec_app.
    - apply (steps_exec 2). apply surjective_pairing.
    - apply exec_add with (urls := ["https://c/z.pdf"]).
      apply (steps_exec 20). apply surjective_pairing. }
  split; [exact H|]. split; [exact Hexec|]. split; [reflexivity|].
  exact (run_can_be_repeated Sample.platform Sample_laws s0 H _ _ Hexec
           eq_refl).
Defined.

(** X15.  In every reachable state [isProcessing] is set exactly while a
    run is in progress. *)
Theorem isProcessing_while_running (P : Platform) (L : PlatformLaws P)
    (s : State) :
  reachable s -> (isProcessing s = true <-> pc s <> NotRunning).
Proof.
  intros Hr. pose proof (reachable_Inv s Hr) as HI. unfold Inv in HI.
  destruct (pc s) eqn:Epc.
  - destruct HI as (_ & Hip & _). rewrite Hip. split; congruence.
  - destruct HI as (_ & _ & ? & ? & ? & ? & _ & _ & _ & _ & Hflag & _).
    rewrite Epc in Hflag. split; [discriminate | auto].
  - destruct HI as (_ & _ & ? & ? & ? & ? & _ & _ & _ & _ & Hflag & _).
    rewrite Epc in Hflag. split; [discriminate | auto].
  - destruct HI as (_ & _ & ? & ? & ? & ? & _ & _ & _ & _ & Hflag & _).
    rewrite Epc in Hflag. split; [discriminate | auto].
  - destruct HI as (_ & _ & ? & ? & ? & ? & _ & _ & _ & _ & Hflag & _).
    rewrite Epc in Hflag. split; [discriminate | auto].
Qed.

Lemma isProcessing_while_running_witness :
  let s := snd (steps 5 (runTasks Sample.queue3)) in
  reachable s /\ isProcessing s = true /\ pc s <> NotRunning.
Proof.
  intros s.
  assert (H : reachable s).
  { apply (@steps_reachable Sample.platform 5), reach_runTasks; [|reflexivity].
    apply reach_processUrls, reach_initial. }
  split; [exact H|]. split; [reflexivity|].
  apply (proj1 (isProcessing_while_running Sample.platform Sample_laws s H)).
  reflexivity.
Defined.
